(** * The journal of a double-entry ledger: policy engine and ingestion

    A shallow embedding of [src/journal.cc] (class [journal_t]): account
    registration and the known-entity rule, metadata checks, the
    transaction pipeline [add_xact] / [remove_xact], [read] and the
    transient-cache sweeps [has_xdata] / [clear_xdata].

    C++ objects live in stores indexed by pointers; exceptions, warnings
    and invalid pointer dereferences are outcomes of a small monad. *)

From Stdlib Require Import Ascii String.
From stdpp Require Import gmap strings list fin_maps.

Open Scope string_scope.
Open Scope list_scope.
Open Scope stdpp_scope.

(** ** Outcomes and the effect monad *)

(** What a C++ exception carries.  [bad_get] is [boost::bad_get], raised by
    [boost::get<T>(variant&)] when the variant holds another alternative. *)
Inductive exn :=
  | parse_error (msg : string)
  | runtime_error (msg : string)
  | bad_get.

(** A call returns, throws, or dereferences a null or dangling pointer. *)
Inductive outcome (A : Type) :=
  | Ret (a : A)
  | Throw (e : exn)
  | Fault.
Arguments Ret {A} a.
Arguments Throw {A} e.
Arguments Fault {A}.

(** The result of running a computation: its outcome, the state it leaves
    and the warnings it printed through [warning_], oldest first. *)
Record result (S A : Type) := Result {
  res : outcome A;
  st : S;
  out : list string
}.
Arguments Result {S A} res st out.
Arguments res {S A} r.
Arguments st {S A} r.
Arguments out {S A} r.

Definition M (S A : Type) : Type := S → result S A.

Definition ret_ {S A} (a : A) : M S A := λ s, Result (Ret a) s [].

Definition bind_ {S A B} (m : M S A) (k : A → M S B) : M S B :=
  λ s,
    let r := m s in
    match res r with
    | Ret a => let r' := k a (st r) in Result (res r') (st r') (out r ++ out r')
    | Throw e => Result (Throw e) (st r) (out r)
    | Fault => Result Fault (st r) (out r)
    end.

#[global] Instance M_ret {S} : MRet (M S) := @ret_ S.
#[global] Instance M_bind {S} : MBind (M S) := λ A B k m, bind_ m k.

Definition gets {S A} (f : S → A) : M S A := λ s, Result (Ret (f s)) s [].
Definition modify {S} (f : S → S) : M S unit := λ s, Result (Ret tt) (f s) [].
Definition throw_ {S A} (e : exn) : M S A := λ s, Result (Throw e) s [].
Definition fault {S A} : M S A := λ s, Result Fault s [].
Definition warning_ {S} (msg : string) : M S unit := λ s, Result (Ret tt) s [msg].

(** A pointer that must be valid: [None] is a null or dangling pointer. *)
Definition deref {S A} (o : option A) : M S A :=
  match o with Some a => mret a | None => fault end.

(** Run a computation on a component [T] of the state [S]. *)
Definition zoom {S T A} (proj : S → T) (upd : T → S → S) (m : M T A) : M S A :=
  λ s, let r := m (proj s) in Result (res r) (upd (st r) s) (out r).

(** [foreach (x, l) body]. *)
Fixpoint foreach {S A} (l : list A) (body : A → M S unit) : M S unit :=
  match l with
  | [] => mret tt
  | x :: l' => body x;; foreach l' body
  end.

(** [try { body } catch (...) { handler; throw; }]: a fault is not an
    exception and is not caught. *)
Definition try_catch_rethrow {S A} (body : M S A) (handler : M S unit) : M S A :=
  λ s,
    let r := body s in
    match res r with
    | Throw e =>
        let r' := (handler;; throw_ e) (st r) in
        Result (res r') (st r') (out r ++ out r')
    | _ => r
    end.

(** ** Data model *)

Definition xact_ptr := positive.
Definition post_ptr := positive.
Definition journal_ptr := positive.
Definition scope_ptr := positive.

(** [item_t::state_t]. *)
Inductive state_t := UNCLEARED | CLEARED | PENDING.

(** [journal_t::checking_style_t]. *)
Inductive checking_style_t := CHECK_PERMISSIVE | CHECK_WARNING | CHECK_ERROR.

#[global] Instance state_t_eq_dec : EqDecision state_t.
Proof. solve_decision. Defined.
#[global] Instance checking_style_t_eq_dec : EqDecision checking_style_t.
Proof. solve_decision. Defined.

(** Modelled from the spec: [value.h] is not among the sources.  A
    metadata value is null or carries text; [to_string] and the stream
    output [<<] both give that text. *)
Inductive value_t := NULL_VALUE | string_value (s : string).

Definition is_null (v : value_t) : bool :=
  match v with NULL_VALUE => true | string_value _ => false end.

Definition to_string (v : value_t) : string :=
  match v with NULL_VALUE => EmptyString | string_value s => s end.

(** Modelled from the spec: [expr.h] is not among the sources.  A check is
    an assertion or a warning; the code only tests [== EXPR_ASSERTION]. *)
Inductive check_expr_kind_t := EXPR_ASSERTION | EXPR_WARNING.

#[global] Instance check_expr_kind_t_eq_dec : EqDecision check_expr_kind_t.
Proof. solve_decision. Defined.

(** A [path] is known here by its name.  Streamed into a message, a path
    is printed by the inserter of Boost.Filesystem, that is
    [boost::io::quoted] with the escape character [&]: the name between
    two double quotes, each double quote and each [&] of the name
    preceded by [&]. *)
Definition double_quote : ascii := "034"%char.

Fixpoint escaped (s : string) : string :=
  match s with
  | EmptyString => EmptyString
  | String c s' =>
      if bool_decide (c = double_quote ∨ c = "&"%char)
      then String "&" (String c (escaped s'))
      else String c (escaped s')
  end.

Definition quoted (s : string) : string :=
  String double_quote (escaped s +:+ String double_quote EmptyString).

(** An expression is known here by its source text, which is what [<<]
    prints; its evaluation [calc] is external. *)
Definition expr_t := string.
(** A [mask_t] is known by its pattern; [match] is external. *)
Definition mask_t := string.

(** [item_t::string_map]: tag name to ([optional<value_t>], parsed flag),
    iterated in the order of the list. *)
Definition tag_data_t : Type := option value_t * bool.
Definition string_map : Type := list (string * tag_data_t).

(** The part of [item_t] that [xact_t] and [post_t] inherit. *)
Record item_t := {
  ITEM_TEMP : bool;
  _state : state_t;
  metadata : option string_map
}.

(** Opaque computed data. *)
Definition xdata_t := nat.

(** [xact_base_t] with the members of [xact_t] the journal reads; automated
    and periodic transactions are stored with the same record.
    Modelled from the spec: a transaction carries its own optional cache
    ([has_xdata] / [clear_xdata] of [xact.cc] are not among the sources). *)
Record xact_t := {
  xact_item : item_t;
  journal : option journal_ptr;
  payee : string;
  posts : list post_ptr;
  xact_xdata : option xdata_t
}.

(** An account pointer is the path of names from the journal's master
    account; the master itself is the empty path. *)
Definition account_ptr : Type := list string.

Record post_t := {
  post_item : item_t;
  xact : option xact_ptr;
  account : option account_ptr
}.

(** Modelled from the spec: [account.h] is not among the sources.  An
    account owns its children, whose names are unique among siblings. *)
#[warnings="-register-all"]
Inductive account_t := mk_account {
  name : string;
  ACCOUNT_KNOWN : bool;
  xdata_ : option xdata_t;
  accounts : list account_t
}.

Record commodity_t := {
  symbol : string;
  COMMODITY_KNOWN : bool
}.

Record journal_t := {
  xacts : list xact_ptr;
  auto_xacts : list xact_ptr;
  period_xacts : list xact_ptr;
  account_aliases : gmap string account_ptr;
  payees_for_unknown_accounts : list (mask_t * account_ptr);
  (** a multimap: entries with equal keys keep their insertion order *)
  tag_check_exprs : list (string * (expr_t * check_expr_kind_t));
  known_tags : gset string;
  checksum_map : gmap string xact_ptr;
  fixed_accounts : bool;
  fixed_payees : bool;
  fixed_commodities : bool;
  fixed_metadata : bool;
  was_loaded : bool;
  force_checking : bool;
  checking_style : checking_style_t
}.

(** Transaction and posting objects. *)
Record xstore := {
  xact_objs : gmap xact_ptr xact_t;
  post_objs : gmap post_ptr post_t
}.

(** Everything the journal points to: the account tree below [master], the
    commodity pool and the transaction objects. *)
Record heap := {
  master : account_t;
  pool : gmap string commodity_t;
  objs : xstore
}.

Record world := {
  jrnl : journal_t;
  hp : heap
}.

(** *** Field updates *)

Definition set_jrnl (f : journal_t → journal_t) (w : world) : world :=
  {| jrnl := f (jrnl w); hp := hp w |}.
Definition set_hp (f : heap → heap) (w : world) : world :=
  {| jrnl := jrnl w; hp := f (hp w) |}.
Definition set_master (f : account_t → account_t) (h : heap) : heap :=
  {| master := f (master h); pool := pool h; objs := objs h |}.
Definition set_pool (f : gmap string commodity_t → gmap string commodity_t)
    (h : heap) : heap :=
  {| master := master h; pool := f (pool h); objs := objs h |}.
Definition set_objs (f : xstore → xstore) (h : heap) : heap :=
  {| master := master h; pool := pool h; objs := f (objs h) |}.
Definition set_xact_objs (f : gmap xact_ptr xact_t → gmap xact_ptr xact_t)
    (s : xstore) : xstore :=
  {| xact_objs := f (xact_objs s); post_objs := post_objs s |}.

Definition set_journal (j : option journal_ptr) (x : xact_t) : xact_t :=
  {| xact_item := xact_item x; journal := j; payee := payee x;
     posts := posts x; xact_xdata := xact_xdata x |}.
Definition set_xact_xdata (d : option xdata_t) (x : xact_t) : xact_t :=
  {| xact_item := xact_item x; journal := journal x; payee := payee x;
     posts := posts x; xact_xdata := d |}.

Definition set_xacts (l : list xact_ptr) (j : journal_t) : journal_t :=
  {| xacts := l; auto_xacts := auto_xacts j; period_xacts := period_xacts j;
     account_aliases := account_aliases j;
     payees_for_unknown_accounts := payees_for_unknown_accounts j;
     tag_check_exprs := tag_check_exprs j; known_tags := known_tags j;
     checksum_map := checksum_map j; fixed_accounts := fixed_accounts j;
     fixed_payees := fixed_payees j; fixed_commodities := fixed_commodities j;
     fixed_metadata := fixed_metadata j; was_loaded := was_loaded j;
     force_checking := force_checking j; checking_style := checking_style j |}.
Definition set_known_tags (s : gset string) (j : journal_t) : journal_t :=
  {| xacts := xacts j; auto_xacts := auto_xacts j; period_xacts := period_xacts j;
     account_aliases := account_aliases j;
     payees_for_unknown_accounts := payees_for_unknown_accounts j;
     tag_check_exprs := tag_check_exprs j; known_tags := s;
     checksum_map := checksum_map j; fixed_accounts := fixed_accounts j;
     fixed_payees := fixed_payees j; fixed_commodities := fixed_commodities j;
     fixed_metadata := fixed_metadata j; was_loaded := was_loaded j;
     force_checking := force_checking j; checking_style := checking_style j |}.
Definition set_checksum_map (m : gmap string xact_ptr) (j : journal_t) : journal_t :=
  {| xacts := xacts j; auto_xacts := auto_xacts j; period_xacts := period_xacts j;
     account_aliases := account_aliases j;
     payees_for_unknown_accounts := payees_for_unknown_accounts j;
     tag_check_exprs := tag_check_exprs j; known_tags := known_tags j;
     checksum_map := m; fixed_accounts := fixed_accounts j;
     fixed_payees := fixed_payees j; fixed_commodities := fixed_commodities j;
     fixed_metadata := fixed_metadata j; was_loaded := was_loaded j;
     force_checking := force_checking j; checking_style := checking_style j |}.
Definition set_fixed_accounts (b : bool) (j : journal_t) : journal_t :=
  {| xacts := xacts j; auto_xacts := auto_xacts j; period_xacts := period_xacts j;
     account_aliases := account_aliases j;
     payees_for_unknown_accounts := payees_for_unknown_accounts j;
     tag_check_exprs := tag_check_exprs j; known_tags := known_tags j;
     checksum_map := checksum_map j; fixed_accounts := b;
     fixed_payees := fixed_payees j; fixed_commodities := fixed_commodities j;
     fixed_metadata := fixed_metadata j; was_loaded := was_loaded j;
     force_checking := force_checking j; checking_style := checking_style j |}.
Definition set_fixed_commodities (b : bool) (j : journal_t) : journal_t :=
  {| xacts := xacts j; auto_xacts := auto_xacts j; period_xacts := period_xacts j;
     account_aliases := account_aliases j;
     payees_for_unknown_accounts := payees_for_unknown_accounts j;
     tag_check_exprs := tag_check_exprs j; known_tags := known_tags j;
     checksum_map := checksum_map j; fixed_accounts := fixed_accounts j;
     fixed_payees := fixed_payees j; fixed_commodities := b;
     fixed_metadata := fixed_metadata j; was_loaded := was_loaded j;
     force_checking := force_checking j; checking_style := checking_style j |}.
Definition set_fixed_metadata (b : bool) (j : journal_t) : journal_t :=
  {| xacts := xacts j; auto_xacts := auto_xacts j; period_xacts := period_xacts j;
     account_aliases := account_aliases j;
     payees_for_unknown_accounts := payees_for_unknown_accounts j;
     tag_check_exprs := tag_check_exprs j; known_tags := known_tags j;
     checksum_map := checksum_map j; fixed_accounts := fixed_accounts j;
     fixed_payees := fixed_payees j; fixed_commodities := fixed_commodities j;
     fixed_metadata := b; was_loaded := was_loaded j;
     force_checking := force_checking j; checking_style := checking_style j |}.

Definition set_checking_style (c : checking_style_t) (j : journal_t) : journal_t :=
  {| xacts := xacts j; auto_xacts := auto_xacts j; period_xacts := period_xacts j;
     account_aliases := account_aliases j;
     payees_for_unknown_accounts := payees_for_unknown_accounts j;
     tag_check_exprs := tag_check_exprs j; known_tags := known_tags j;
     checksum_map := checksum_map j; fixed_accounts := fixed_accounts j;
     fixed_payees := fixed_payees j; fixed_commodities := fixed_commodities j;
     fixed_metadata := fixed_metadata j; was_loaded := was_loaded j;
     force_checking := force_checking j; checking_style := c |}.

Definition set_tag_check_exprs
    (l : list (string * (expr_t * check_expr_kind_t))) (j : journal_t)
    : journal_t :=
  {| xacts := xacts j; auto_xacts := auto_xacts j; period_xacts := period_xacts j;
     account_aliases := account_aliases j;
     payees_for_unknown_accounts := payees_for_unknown_accounts j;
     tag_check_exprs := l; known_tags := known_tags j;
     checksum_map := checksum_map j; fixed_accounts := fixed_accounts j;
     fixed_payees := fixed_payees j; fixed_commodities := fixed_commodities j;
     fixed_metadata := fixed_metadata j; was_loaded := was_loaded j;
     force_checking := force_checking j; checking_style := checking_style j |}.

Definition set_payees_for_unknown_accounts (l : list (mask_t * account_ptr))
    (j : journal_t) : journal_t :=
  {| xacts := xacts j; auto_xacts := auto_xacts j; period_xacts := period_xacts j;
     account_aliases := account_aliases j;
     payees_for_unknown_accounts := l;
     tag_check_exprs := tag_check_exprs j; known_tags := known_tags j;
     checksum_map := checksum_map j; fixed_accounts := fixed_accounts j;
     fixed_payees := fixed_payees j; fixed_commodities := fixed_commodities j;
     fixed_metadata := fixed_metadata j; was_loaded := was_loaded j;
     force_checking := force_checking j; checking_style := checking_style j |}.

(** ** The account tree

    Modelled from the spec: [account.cc] is not among the sources.
    [find_account] splits a colon-delimited path and walks the tree,
    creating the nodes that are missing; [fullname] is the derived full
    path; [clear_xdata] clears the cache of the node and, recursively, of
    its children; [children_with_xdata] looks for a cache below a node. *)

Definition has_name (n : string) (a : account_t) : bool :=
  bool_decide (name a = n).

Definition with_accounts (l : list account_t) (a : account_t) : account_t :=
  mk_account (name a) (ACCOUNT_KNOWN a) (xdata_ a) l.

Definition add_flags_ACCOUNT_KNOWN (a : account_t) : account_t :=
  mk_account (name a) true (xdata_ a) (accounts a).

(** The account a pointer designates, if it is still in the tree. *)
Fixpoint account_at (p : account_ptr) (a : account_t) : option account_t :=
  match p with
  | [] => Some a
  | n :: p' =>
      match List.find (has_name n) (accounts a) with
      | Some c => account_at p' c
      | None => None
      end
  end.

(** Update the first child called [n]. *)
Fixpoint alter_child (f : account_t → account_t) (n : string)
    (l : list account_t) : list account_t :=
  match l with
  | [] => []
  | c :: l' => if has_name n c then f c :: l' else c :: alter_child f n l'
  end.

Fixpoint alter_account (f : account_t → account_t) (p : account_ptr)
    (a : account_t) : account_t :=
  match p with
  | [] => f a
  | n :: p' => with_accounts (alter_child (alter_account f p') n (accounts a)) a
  end.

Definition new_account (n : string) : account_t := mk_account n false None [].

(** Walk down [segs] from [a], creating what is missing. *)
Fixpoint find_or_create (segs : list string) (a : account_t) : account_t :=
  match segs with
  | [] => a
  | n :: segs' =>
      match List.find (has_name n) (accounts a) with
      | Some _ =>
          with_accounts (alter_child (find_or_create segs') n (accounts a)) a
      | None =>
          with_accounts (accounts a ++ [find_or_create segs' (new_account n)]) a
      end
  end.

Fixpoint split_path (s : string) : list string :=
  match s with
  | EmptyString => [EmptyString]
  | String c s' =>
      if bool_decide (c = ":"%char) then EmptyString :: split_path s'
      else match split_path s' with
           | seg :: segs => String c seg :: segs
           | [] => [String c EmptyString]
           end
  end.

Definition fullname (p : account_ptr) : string := String.concat ":" p.

Fixpoint account_clear_xdata (a : account_t) : account_t :=
  match a with
  | mk_account n k _ cs => mk_account n k None (List.map account_clear_xdata cs)
  end.

Fixpoint children_with_xdata (a : account_t) : bool :=
  match a with
  | mk_account _ _ _ cs =>
      existsb (λ c, bool_decide (is_Some (xdata_ c)) || children_with_xdata c) cs
  end.

Definition account_has_xdata (a : account_t) : bool :=
  bool_decide (is_Some (xdata_ a)).

(** Modelled from the spec: [item.cc] is not among the sources.
    [get_tag] looks a tag up in the item's metadata and gives its value,
    if the tag is there and has one. *)
Definition get_tag (tag : string) (i : item_t) : option value_t :=
  match metadata i with
  | Some m =>
      match List.find (λ kv, bool_decide (kv.1 = tag)) m with
      | Some (_, (v, _)) => v
      | None => None
      end
  | None => None
  end.

(** ** Access to the stores *)

Definition get_xact (x : xact_ptr) : M world xact_t :=
  λ w, deref (xact_objs (objs (hp w)) !! x) w.

Definition get_post (p : post_ptr) : M world post_t :=
  λ w, deref (post_objs (objs (hp w)) !! p) w.

Definition get_account (a : account_ptr) : M world account_t :=
  λ w, deref (account_at a (master (hp w))) w.

Definition get_commodity (c : string) : M world commodity_t :=
  λ w, deref (pool (hp w) !! c) w.

(** [xact->journal = j]: the object must exist. *)
Definition assign_journal (x : xact_ptr) (j : option journal_ptr)
    (s : xstore) : xstore :=
  set_xact_objs (alter (set_journal j) x) s.

Definition put_journal (x : xact_ptr) (j : option journal_ptr) : M world unit :=
  get_xact x;; modify (set_hp (set_objs (assign_journal x j))).

Definition put_xact_xdata (x : xact_ptr) (d : option xdata_t) : M world unit :=
  get_xact x;;
  modify (set_hp (set_objs (set_xact_objs (alter (set_xact_xdata d) x)))).

Definition add_flags_account (a : account_ptr) : M world unit :=
  get_account a;;
  modify (set_hp (set_master (alter_account add_flags_ACCOUNT_KNOWN a))).

Definition add_flags_commodity (c : string) : M world unit :=
  get_commodity c;;
  modify (set_hp (set_pool (alter
    (λ k, {| symbol := symbol k; COMMODITY_KNOWN := true |}) c))).

(** [account_t::find_account(name)] with [auto_create] left at its
    default, called on the account [base]. *)
Definition find_account (base : account_ptr) (nm : string) : M world account_ptr :=
  get_account base;;
  modify (set_hp (set_master
    (alter_account (find_or_create (split_path nm)) base)));;
  mret (base ++ split_path nm).

(** A pointer argument that may be null. *)
Definition get_post_opt (p : option post_ptr) : M world post_t :=
  match p with Some p => get_post p | None => fault end.
Definition get_xact_opt (x : option xact_ptr) : M world xact_t :=
  match x with Some x => get_xact x | None => fault end.

(** [variant<int, xact_t *, post_t *>]. *)
Inductive context_t :=
  | ctx_int (n : Z)
  | ctx_xact (x : option xact_ptr)
  | ctx_post (p : option post_ptr).

Definition which (c : context_t) : nat :=
  match c with ctx_int _ => 0 | ctx_xact _ => 1 | ctx_post _ => 2 end.

(** ** The journal's operations *)

(** [journal_t::initialize], lines 82-93: the members of a new journal.
    Its master account is [new_account EmptyString]. *)
Definition initialize : journal_t :=
  {| xacts := []; auto_xacts := []; period_xacts := [];
     account_aliases := ∅; payees_for_unknown_accounts := [];
     tag_check_exprs := []; known_tags := ∅; checksum_map := ∅;
     fixed_accounts := false; fixed_payees := false;
     fixed_commodities := false; fixed_metadata := false;
     was_loaded := false; force_checking := false;
     checking_style := CHECK_PERMISSIVE |}.

Section Journal.

(** The address of the journal, [this]. *)
Variable this : journal_ptr.
(** [scope_t::default_scope]. *)
Variable default_scope : option scope_ptr.

(** External collaborators, whose code is not in [journal.cc].
    [xact_t::finalize] balances the postings of a transaction and resolves
    elided amounts: it works on the transaction and posting objects.
    [auto_xact_t::extend_xact] applies one automated transaction to a
    transaction and may add postings and create accounts: it works on the
    objects the journal points to.  Neither writes the journal's own
    members.  Both may throw and warn.  [expr_t::calc] evaluates a
    predicate in the scope of a transaction or posting extended with a
    value; [mask_t::match] matches a pattern; [parse] is the textual
    parser, which calls back into the journal. *)
Variable finalize : xact_ptr → M xstore bool.
Variable auto_extend : xact_ptr → xact_ptr → M heap unit.
Variable calc : expr_t → xact_ptr + post_ptr → value_t → world → bool.
Variable mask_match : mask_t → string → bool.
Variable parse : string → scope_ptr → account_ptr → string → M world nat.

Definition call_finalize (x : xact_ptr) : M world bool :=
  zoom (λ w, objs (hp w)) (λ s, set_hp (set_objs (λ _, s))) (finalize x).

Definition call_auto_extend (auto_xact x : xact_ptr) : M world unit :=
  zoom hp (λ h, set_hp (λ _, h)) (auto_extend auto_xact x).

(** *** [journal_t::register_account] *)

(** Lines 119-127: the alias table, then the tree. *)
Definition lookup_account (nm : string) (master_account : account_ptr)
    : M world account_ptr :=
  j ← gets jrnl;
  let result : option account_ptr :=
    if bool_decide (0 < size (account_aliases j))
    then account_aliases j !! nm else None in
  match result with
  | Some r => mret r
  | None => find_account master_account nm
  end.

(** Lines 130-135: the first mapping whose mask matches the payee of the
    posting's transaction replaces [result]. *)
Fixpoint payee_for_unknown_account (l : list (mask_t * account_ptr))
    (post : option post_ptr) (result : account_ptr) : M world account_ptr :=
  match l with
  | [] => mret result
  | value :: l' =>
      p ← get_post_opt post;
      x ← get_xact_opt (xact p);
      if mask_match value.1 (payee x) then mret value.2
      else payee_for_unknown_account l' post result
  end.

(** Lines 129-136. *)
Definition route_unknown_account (post : option post_ptr)
    (result : account_ptr) : M world account_ptr :=
  a ← get_account result;
  if bool_decide (name a = "Unknown") then
    j ← gets jrnl;
    payee_for_unknown_account (payees_for_unknown_accounts j) post result
  else mret result.

(** Lines 138-154. *)
Definition check_account_known (post : option post_ptr) (location : string)
    (result : account_ptr) : M world unit :=
  a ← get_account result;
  if negb (ACCOUNT_KNOWN a) then
    j ← gets jrnl;
    match post with
    | None =>
        (if force_checking j
         then modify (set_jrnl (set_fixed_accounts true)) else mret tt);;
        add_flags_account result
    | Some post =>
        learn ← (if negb (fixed_accounts j)
                 then p ← get_post post;
                      mret (negb (bool_decide (_state (post_item p) = UNCLEARED)))
                 else mret false);
        if learn : bool then add_flags_account result
        else if bool_decide (checking_style j = CHECK_WARNING)
        then warning_ (location +:+ "Unknown account '" +:+ fullname result +:+ "'")
        else if bool_decide (checking_style j = CHECK_ERROR)
        then throw_ (parse_error ("Unknown account '" +:+ fullname result +:+ "'"))
        else mret tt
    end
  else mret tt.

(** Lines 119-136: the account the name stands for. *)
Definition resolve_account (nm : string) (post : option post_ptr)
    (master_account : account_ptr) : M world account_ptr :=
  result ← lookup_account nm master_account;
  route_unknown_account post result.

Definition register_account (nm : string) (post : option post_ptr)
    (location : string) (master_account : account_ptr) : M world account_ptr :=
  result ← resolve_account nm post master_account;
  check_account_known post location result;;
  mret result.

(** *** [journal_t::register_commodity]

    The commodity is passed by reference; here by its symbol in the pool. *)

(** [boost::get<T *>(context)->_state]. *)
Definition context_state (context : context_t) : M world state_t :=
  match context with
  | ctx_int _ => throw_ bad_get
  | ctx_xact x => x ← get_xact_opt x; mret (_state (xact_item x))
  | ctx_post p => p ← get_post_opt p; mret (_state (post_item p))
  end.

(** The condition of lines 205-208, 264-267: the context is a transaction
    or a posting whose state is not [UNCLEARED]. *)
Definition context_not_uncleared (context : context_t) : M world bool :=
  match context with
  | ctx_int _ => mret false
  | _ => s ← context_state context; mret (negb (bool_decide (s = UNCLEARED)))
  end.

Definition register_commodity (comm : string) (context : context_t)
    (location : string) : M world unit :=
  c ← get_commodity comm;
  if negb (COMMODITY_KNOWN c) then
    j ← gets jrnl;
    if bool_decide (which context = 0) then
      (if force_checking j
       then modify (set_jrnl (set_fixed_commodities true)) else mret tt);;
      add_flags_commodity comm
    else
      learn ← (if negb (fixed_commodities j)
               then context_not_uncleared context else mret false);
      if learn : bool then add_flags_commodity comm
      else if bool_decide (checking_style j = CHECK_WARNING)
      then warning_ (location +:+ "Unknown commodity '" +:+ symbol c +:+ "'")
      else if bool_decide (checking_style j = CHECK_ERROR)
      then throw_ (parse_error ("Unknown commodity '" +:+ symbol c +:+ "'"))
      else mret tt
  else mret tt.

(** *** [check_metadata] and [journal_t::register_metadata] *)

(** [tag_check_exprs.equal_range(key)]. *)
Definition equal_range (key : string)
    (m : list (string * (expr_t * check_expr_kind_t)))
    : list (expr_t * check_expr_kind_t) :=
  snd <$> List.filter (λ kv, bool_decide (kv.1 = key)) m.

(** Lines 233-236: the parent scope of [val_scope].  Any context that is
    not a transaction is read as a posting. *)
Definition context_scope (context : context_t) : M world (xact_ptr + post_ptr) :=
  match context with
  | ctx_xact (Some x) => mret (inl x)
  | ctx_post (Some p) => mret (inr p)
  | ctx_int _ => throw_ bad_get
  | _ => fault
  end.

Definition assertion_failed (key : string) (value : value_t) (e : expr_t) : string :=
  "Metadata assertion failed for (" +:+ key +:+ ": " +:+ to_string value
    +:+ "): " +:+ e.

Definition check_failed (location key : string) (value : value_t) (e : expr_t)
    : string :=
  location +:+ "Metadata check failed for (" +:+ key +:+ ": "
    +:+ to_string value +:+ "): " +:+ e.

(** The body of the loop, lines 233-246. *)
Definition check_one (key : string) (value : value_t) (context : context_t)
    (location : string) (i : expr_t * check_expr_kind_t) : M world unit :=
  val_scope ← context_scope context;
  holds ← gets (calc i.1 val_scope value);
  if negb holds then
    if bool_decide (i.2 = EXPR_ASSERTION)
    then throw_ (parse_error (assertion_failed key value i.1))
    else warning_ (check_failed location key value i.1)
  else mret tt.

Definition check_metadata (key : string) (value : value_t)
    (context : context_t) (location : string) : M world unit :=
  j ← gets jrnl;
  foreach (equal_range key (tag_check_exprs j))
          (check_one key value context location).

(** Lines 255-276. *)
Definition check_tag_known (key : string) (context : context_t)
    (location : string) : M world unit :=
  j ← gets jrnl;
  if bool_decide (key ∉ known_tags j) then
    if bool_decide (which context = 0) then
      (if force_checking j
       then modify (set_jrnl (set_fixed_metadata true)) else mret tt);;
      modify (set_jrnl (λ j, set_known_tags ({[key]} ∪ known_tags j) j))
    else
      learn ← (if negb (fixed_metadata j)
               then context_not_uncleared context else mret false);
      if learn : bool
      then modify (set_jrnl (λ j, set_known_tags ({[key]} ∪ known_tags j) j))
      else if bool_decide (checking_style j = CHECK_WARNING)
      then warning_ (location +:+ "Unknown metadata tag '" +:+ key +:+ "'")
      else if bool_decide (checking_style j = CHECK_ERROR)
      then throw_ (parse_error ("Unknown metadata tag '" +:+ key +:+ "'"))
      else mret tt
  else mret tt.

Definition register_metadata (key : string) (value : value_t)
    (context : context_t) (location : string) : M world unit :=
  check_tag_known key context location;;
  if negb (is_null value)
  then check_metadata key value context location
  else mret tt.

(** *** [check_all_metadata] *)

(** Line 289 parses as [((xact || post) && xact) ? xact->metadata :
    post->metadata]; lines 290-291 read the same map. *)
Definition context_metadata (context : context_t) : M world (option string_map) :=
  let xact := match context with ctx_xact x => x | _ => None end in
  let post := match context with ctx_post p => p | _ => None end in
  match xact with
  | Some x => x ← get_xact x; mret (metadata (xact_item x))
  | None => p ← get_post_opt post; mret (metadata (post_item p))
  end.

Definition check_all_metadata (context : context_t) : M world unit :=
  md ← context_metadata context;
  match md with
  | Some m =>
      foreach m (λ pair,
        match pair.2.1 with
        | Some value => register_metadata pair.1 value context EmptyString
        | None => register_metadata pair.1 NULL_VALUE context EmptyString
        end)
  | None => mret tt
  end.

(** *** [journal_t::extend_xact], [add_xact], [remove_xact] *)

Definition extend_xact (x : xact_ptr) : M world unit :=
  j ← gets jrnl;
  foreach (auto_xacts j) (λ auto_xact, call_auto_extend auto_xact x).

(** [checksum_map.insert(value_type(key, xact))]: the flag tells whether
    the pair went in. *)
Definition checksum_map_insert (key : string) (x : xact_ptr) : M world bool :=
  j ← gets jrnl;
  match checksum_map j !! key with
  | Some _ => mret false
  | None =>
      modify (set_jrnl (λ j, set_checksum_map (<[key := x]> (checksum_map j)) j));;
      mret true
  end.

(** Lines 315-319 of [add_xact]. *)
Definition extend_and_check (x : xact_ptr) : M world unit :=
  extend_xact x;;
  check_all_metadata (ctx_xact (Some x));;
  xo ← get_xact x;
  foreach (posts xo) (λ post, check_all_metadata (ctx_post (Some post))).

Definition add_xact (x : xact_ptr) : M world bool :=
  put_journal x (Some this);;
  ok ← call_finalize x;
  if negb ok then
    put_journal x None;;
    mret false
  else
    extend_and_check x;;
    xo ← get_xact x;
    inserted ← match get_tag "UUID" (xact_item xo) with
               | Some ref => checksum_map_insert (to_string ref) x
               | None => mret true
               end;
    if negb inserted then
      put_journal x None;;
      mret false
    else
      modify (set_jrnl (λ j, set_xacts (xacts j ++ [x]) j));;
      mret true.

(** Lines 350-356 find the first position that holds the pointer; line
    360 erases that position. *)
Definition remove_xact (x : xact_ptr) : M world bool :=
  j ← gets jrnl;
  match list_find (λ y, y = x) (xacts j) with
  | None => mret false
  | Some (i, _) =>
      modify (set_jrnl (λ j, set_xacts (delete i (xacts j)) j));;
      put_journal x None;;
      mret true
  end.

(** *** [journal_t::has_xdata], [clear_xdata] *)

(** One of the three loops of [has_xdata]: stop at the first hit. *)
Fixpoint any_has_xdata (l : list xact_ptr) : M world bool :=
  match l with
  | [] => mret false
  | x :: l' =>
      xo ← get_xact x;
      if bool_decide (is_Some (xact_xdata xo)) then mret true
      else any_has_xdata l'
  end.

Definition has_xdata : M world bool :=
  j ← gets jrnl;
  b ← any_has_xdata (xacts j);
  if b : bool then mret true else
  b ← any_has_xdata (auto_xacts j);
  if b : bool then mret true else
  b ← any_has_xdata (period_xacts j);
  if b : bool then mret true else
  m ← gets (λ w, master (hp w));
  if account_has_xdata m || children_with_xdata m then mret true
  else mret false.

(** One of the three loops of [clear_xdata]. *)
Definition clear_each (l : list xact_ptr) : M world unit :=
  foreach l (λ x,
    xo ← get_xact x;
    if negb (ITEM_TEMP (xact_item xo)) then put_xact_xdata x None
    else mret tt).

Definition clear_xdata : M world unit :=
  j ← gets jrnl;
  clear_each (xacts j);;
  clear_each (auto_xacts j);;
  clear_each (period_xacts j);;
  modify (set_hp (set_master account_clear_xdata)).

(** *** [journal_t::read] from a stream *)

(** Lines 373-381, the block under [try]. *)
Definition read_body (in_ pathname : string) (master_alt : option account_ptr)
    (scope : option scope_ptr) : M world nat :=
  let scope := match scope with Some s => Some s | None => default_scope end in
  match scope with
  | None =>
      throw_ (runtime_error
        ("No default scope in which to read journal file '"
           +:+ quoted pathname +:+ "'"))
  | Some scope =>
      parse in_ scope
        (match master_alt with Some m => m | None => [] end) pathname
  end.

Definition read (in_ pathname : string) (master_alt : option account_ptr)
    (scope : option scope_ptr) : M world nat :=
  count ← try_catch_rethrow (read_body in_ pathname master_alt scope)
             clear_xdata;
  clear_xdata;;
  mret count.

End Journal.

(** ** Contexts that are items, and the warnings of a run of checks *)

(** The context a transaction or a posting is validated in. *)
Definition item_context (sc : xact_ptr + post_ptr) : context_t :=
  match sc with
  | inl x => ctx_xact (Some x)
  | inr p => ctx_post (Some p)
  end.

(** The warnings for the checks of [l] whose predicate is false. *)
Definition check_warnings
    (calc : expr_t → xact_ptr + post_ptr → value_t → world → bool)
    (location key : string) (value : value_t) (sc : xact_ptr + post_ptr)
    (w : world) (l : list (expr_t * check_expr_kind_t)) : list string :=
  (λ i, check_failed location key value i.1)
    <$> List.filter (λ i, negb (calc i.1 sc value w)) l.

(** ** The effect of a cache sweep *)

(** What lines 436-437 do to one transaction object. *)
Definition clear_item (xo : xact_t) : xact_t :=
  if ITEM_TEMP (xact_item xo) then xo else set_xact_xdata None xo.

(** The objects after every pointer of [l] has been visited. *)
Definition sweep (l : list xact_ptr) (m : gmap xact_ptr xact_t)
    : gmap xact_ptr xact_t :=
  foldl (λ m x, alter clear_item x m) m l.

Definition sweep_world (l : list xact_ptr) : world → world :=
  set_hp (set_objs (set_xact_objs (sweep l))).

(** Every transaction the journal lists. *)
Definition all_xacts (j : journal_t) : list xact_ptr :=
  xacts j ++ auto_xacts j ++ period_xacts j.

(** The world after the whole of [clear_xdata]. *)
Definition cleared (w : world) : world :=
  set_hp (set_master account_clear_xdata) (sweep_world (all_xacts (jrnl w)) w).

(** The pointer designates an object. *)
Definition valid_xact (w : world) (x : xact_ptr) : Prop :=
  is_Some (xact_objs (objs (hp w)) !! x).

(** The object behind a pointer carries a cache. *)
Definition carries_xdata (w : world) (x : xact_ptr) : bool :=
  match xact_objs (objs (hp w)) !! x with
  | Some xo => bool_decide (is_Some (xact_xdata xo))
  | None => false
  end.

(** The object behind a pointer is temporary and carries a cache. *)
Definition temp_xdata (w : world) (x : xact_ptr) : bool :=
  match xact_objs (objs (hp w)) !! x with
  | Some xo => ITEM_TEMP (xact_item xo) && bool_decide (is_Some (xact_xdata xo))
  | None => false
  end.

(** ** The state changes of [add_xact]

    Line 337 appends to the list, line 327 claims a checksum, lines 311 and
    332 clear the back-reference. *)
Definition push_xact (x : xact_ptr) : world → world :=
  set_jrnl (λ j, set_xacts (xacts j ++ [x]) j).
Definition claim_checksum (key : string) (x : xact_ptr) : world → world :=
  set_jrnl (λ j, set_checksum_map (<[key := x]> (checksum_map j)) j).
Definition detach (x : xact_ptr) : world → world :=
  set_hp (set_objs (assign_journal x None)).

(** ** Sample journals

    Small worlds on which the operations can be run. *)

(** A transaction in state [s] with the tags [md] and the postings [ps]. *)
Definition sample_xact (s : state_t) (md : string_map) (ps : list post_ptr)
    : xact_t :=
  {| xact_item := {| ITEM_TEMP := false; _state := s; metadata := Some md |};
     journal := None; payee := "Grocer"; posts := ps; xact_xdata := None |}.

(** A posting of transaction 1 in state [s]. *)
Definition sample_post (s : state_t) : post_t :=
  {| post_item := {| ITEM_TEMP := false; _state := s; metadata := None |};
     xact := Some 1%positive; account := None |}.

Definition uuid_tag (u : string) : string * tag_data_t :=
  ("UUID", (Some (string_value u), false)).

(** Transactions 1 and 2 carry the same UUID; postings 1 and 2 belong to
    transaction 1, the first uncleared and the second cleared; the
    commodity EUR is in the pool and not yet known. *)
Definition sample_world (j : journal_t) : world :=
  {| jrnl := j;
     hp :=
       {| master := new_account EmptyString;
          pool := {[ "EUR" := {| symbol := "EUR"; COMMODITY_KNOWN := false |} ]};
          objs :=
            {| xact_objs :=
                 {[ 1%positive :=
                      sample_xact CLEARED [uuid_tag "7f3a"] [1%positive; 2%positive];
                    2%positive := sample_xact CLEARED [uuid_tag "7f3a"] [] ]};
               post_objs :=
                 {[ 1%positive := sample_post UNCLEARED;
                    2%positive := sample_post CLEARED ]} |} |} |}.

(** The sample world under [CHECK_ERROR]. *)
Definition strict_world : world :=
  sample_world (set_checking_style CHECK_ERROR initialize).

(** The same with the accounts, commodities and tags fixed. *)
Definition fixed_world : world :=
  sample_world
    (set_fixed_accounts true (set_fixed_commodities true
      (set_fixed_metadata true (set_checking_style CHECK_ERROR initialize)))).

(** Two checks for the tag Ref: a warning, then an assertion. *)
Definition checked_world : world :=
  sample_world
    (set_tag_check_exprs
       [("Ref", ("value =~ /^A/", EXPR_WARNING));
        ("Ref", ("value =~ /^B/", EXPR_ASSERTION))] initialize).

(** Transaction 1 listed twice, around transaction 3. *)
Definition listed_world : world :=
  sample_world (set_xacts [1%positive; 3%positive; 1%positive] initialize).

(** A payee mapping for unknown accounts is declared. *)
Definition routed_world : world :=
  sample_world
    (set_payees_for_unknown_accounts [("Grocer", ["Expenses"])] initialize).

(** A journal whose only transaction is temporary and carries a cache. *)
Definition temp_world : world :=
  {| jrnl := set_xacts [1%positive] initialize;
     hp :=
       {| master := new_account EmptyString; pool := ∅;
          objs :=
            {| xact_objs :=
                 {[ 1%positive :=
                      {| xact_item :=
                           {| ITEM_TEMP := true; _state := UNCLEARED;
                              metadata := None |};
                         journal := None; payee := "Grocer";
                         posts := []; xact_xdata := Some 0 |} ]};
               post_objs := ∅ |} |} |}.

(** Collaborators that do nothing: [finalize] answers [ok]. *)
Definition finalize_says (ok : bool) : xact_ptr → M xstore bool :=
  λ _, mret ok.
Definition no_auto_extend : xact_ptr → xact_ptr → M heap unit :=
  λ _ _, mret tt.
Definition calc_says (b : bool)
    : expr_t → xact_ptr + post_ptr → value_t → world → bool :=
  λ _ _ _ _, b.
Definition match_any : mask_t → string → bool := λ _ _, true.
Definition parse_returns (n : nat)
    : string → scope_ptr → account_ptr → string → M world nat :=
  λ _ _ _ _, mret n.

(** ** Frames

    [keeps R m]: every run of [m] leaves a state related by [R] to the one
    it started in, however it ends. *)

Definition keeps {S A} (R : relation S) (m : M S A) : Prop :=
  ∀ s, R s (st (m s)).

(** The transaction list and the checksum registry are the same. *)
Definition registry_frame : relation world :=
  λ w w',
    xacts (jrnl w') = xacts (jrnl w) ∧
    checksum_map (jrnl w') = checksum_map (jrnl w).

(** What metadata validation may change: no object, and in the journal
    neither list nor registry; the set of known tags only grows. *)
Definition validation_frame : relation world :=
  λ w w',
    hp w' = hp w ∧ known_tags (jrnl w) ⊆ known_tags (jrnl w') ∧
    registry_frame w w'.

(** What the external collaborators may change: the objects, not the
    journal. *)
Definition journal_frame : relation world :=
  λ w w', jrnl w' = jrnl w.

(** What resolving an account name may change: the account tree. *)
Definition tree_frame : relation world :=
  λ w w',
    jrnl w' = jrnl w ∧ objs (hp w') = objs (hp w) ∧ pool (hp w') = pool (hp w).

(** [commits_or_keeps R m]: a run of [m] that does not return true leaves a
    state related by [R] to the one it started in. *)
Definition commits_or_keeps (R : relation world) (m : M world bool) : Prop :=
  ∀ w, res (m w) = Ret true ∨ R w (st (m w)).

(** [silent m]: no run of [m] prints a warning. *)
Definition silent {S A} (m : M S A) : Prop := ∀ s, out (m s) = [].

(** ** The rest of [journal.cc]

    [register_payee] (lines 159-192), [read] from a path (lines 396-411)
    and [valid] (lines 450-464) use members and collaborators that the
    operations above do not need. *)

(** The members [payee_mappings] and [sources] of [journal_t]; a
    [fileinfo_t] is known here by its file name. *)
Record journal_rest := {
  payee_mappings : list (mask_t * string);
  sources : list string
}.

(** The journal with all its members. *)
Record world_ext := {
  base : world;
  rest : journal_rest
}.

Definition set_base (w : world) (e : world_ext) : world_ext :=
  {| base := w; rest := rest e |}.

Definition push_source (filename : string) (e : world_ext) : world_ext :=
  {| base := base e;
     rest := {| payee_mappings := payee_mappings (rest e);
                sources := sources (rest e) ++ [filename] |} |}.

Section JournalRest.

Variable default_scope : option scope_ptr.
Variable mask_match : mask_t → string → bool.

(** The parser, which may change every member of the journal. *)
Variable parse_ext :
  string → scope_ptr → account_ptr → string → M world_ext nat.

(** The file system: [resolve_path], [boost::filesystem::exists] and the
    content an [ifstream] delivers. *)
Variable resolve_path : string → string.
Variable exists_ : string → bool.
Variable ifstream : string → string.

(** [account_t::valid] and [xact_t::valid], external; the latter may look
    at the postings of the transaction. *)
Variable account_valid : account_t → bool.
Variable xact_valid : xact_ptr → world → bool.

(** *** [journal_t::register_payee]

    The block under [#if 0] is not compiled; the transaction and the
    location are unnamed parameters. *)

(** Lines 184-189: [payee] stays empty unless a mask matches. *)
Fixpoint payee_mapping (l : list (mask_t * string)) (nm : string) : string :=
  match l with
  | [] => EmptyString
  | value :: l' =>
      if mask_match value.1 nm then value.2 else payee_mapping l' nm
  end.

Definition register_payee (r : journal_rest) (nm : string)
    (_ : option xact_ptr) (_ : string) : string :=
  let payee := payee_mapping (payee_mappings r) nm in
  if bool_decide (payee = EmptyString) then nm else payee.

(** *** [journal_t::read] from a stream, over the whole journal

    Lines 366-394 again, with the parser free to change the members that
    [read] above leaves out. *)

Definition read_body_ext (in_ pathname : string)
    (master_alt : option account_ptr) (scope : option scope_ptr)
    : M world_ext nat :=
  let scope := match scope with Some s => Some s | None => default_scope end in
  match scope with
  | None =>
      throw_ (runtime_error
        ("No default scope in which to read journal file '"
           +:+ quoted pathname +:+ "'"))
  | Some scope =>
      parse_ext in_ scope
        (match master_alt with Some m => m | None => [] end) pathname
  end.

Definition read_ext (in_ pathname : string) (master_alt : option account_ptr)
    (scope : option scope_ptr) : M world_ext nat :=
  count ← try_catch_rethrow (read_body_ext in_ pathname master_alt scope)
             (zoom base set_base clear_xdata);
  zoom base set_base clear_xdata;;
  mret count.

(** *** [journal_t::read] from a path, lines 396-411 *)

Definition read_path (pathname : string) (master_account : option account_ptr)
    (scope : option scope_ptr) : M world_ext nat :=
  let filename := resolve_path pathname in
  if negb (exists_ filename) then
    throw_ (runtime_error ("Cannot read journal file " +:+ quoted filename))
  else
    count ← read_ext (ifstream filename) filename master_account scope;
    (if bool_decide (0 < count) then modify (push_source filename)
     else mret tt);;
    mret count.

(** *** [journal_t::valid] *)

(** Lines 457-461: stop at the first transaction that is not valid. *)
Fixpoint all_valid (l : list xact_ptr) : M world bool :=
  match l with
  | [] => mret true
  | x :: l' =>
      get_xact x;;
      ok ← gets (xact_valid x);
      if negb ok then mret false else all_valid l'
  end.

Definition valid : M world bool :=
  m ← gets (λ w, master (hp w));
  if negb (account_valid m) then mret false
  else
    j ← gets jrnl;
    all_valid (xacts j).

End JournalRest.

(** ** More frames *)

(** [no_throw m]: no run of [m] ends in an exception. *)
Definition no_throw {S A} (m : M S A) : Prop := ∀ s e, res (m s) ≠ Throw e.

(** Among the members of the journal only the set of known tags
    differs, and it has grown. *)
Definition tags_frame : relation world :=
  λ w w',
    jrnl w' = set_known_tags (known_tags (jrnl w')) (jrnl w) ∧
    known_tags (jrnl w) ⊆ known_tags (jrnl w').

(** What a sweep of the caches may change: each transaction object is as
    it was or has gone through [clear_item], and the account tree is as it
    was or has gone through [account_clear_xdata]. *)
Definition xdata_frame : relation world :=
  λ w w',
    jrnl w' = jrnl w ∧ pool (hp w') = pool (hp w) ∧
    post_objs (objs (hp w')) = post_objs (objs (hp w)) ∧
    (master (hp w') = master (hp w) ∨
     master (hp w') = account_clear_xdata (master (hp w))) ∧
    ∀ x, xact_objs (objs (hp w')) !! x = xact_objs (objs (hp w)) !! x ∨
         xact_objs (objs (hp w')) !! x
           = clear_item <$> xact_objs (objs (hp w)) !! x.

(** More sample journals. *)

(** The sample world under [CHECK_WARNING]. *)
Definition warning_world : world :=
  sample_world (set_checking_style CHECK_WARNING initialize).

(** Two payee mappings that both match every payee. *)
Definition twice_routed_world : world :=
  sample_world
    (set_payees_for_unknown_accounts
       [("Grocer", ["Expenses"; "Food"]); ("Gro", ["Expenses"])] initialize).

(** An alias for the name Cash is declared. *)
Definition set_account_aliases (m : gmap string account_ptr) (j : journal_t)
    : journal_t :=
  {| xacts := xacts j; auto_xacts := auto_xacts j; period_xacts := period_xacts j;
     account_aliases := m;
     payees_for_unknown_accounts := payees_for_unknown_accounts j;
     tag_check_exprs := tag_check_exprs j; known_tags := known_tags j;
     checksum_map := checksum_map j; fixed_accounts := fixed_accounts j;
     fixed_payees := fixed_payees j; fixed_commodities := fixed_commodities j;
     fixed_metadata := fixed_metadata j; was_loaded := was_loaded j;
     force_checking := force_checking j; checking_style := checking_style j |}.

Definition set_force_checking (b : bool) (j : journal_t) : journal_t :=
  {| xacts := xacts j; auto_xacts := auto_xacts j; period_xacts := period_xacts j;
     account_aliases := account_aliases j;
     payees_for_unknown_accounts := payees_for_unknown_accounts j;
     tag_check_exprs := tag_check_exprs j; known_tags := known_tags j;
     checksum_map := checksum_map j; fixed_accounts := fixed_accounts j;
     fixed_payees := fixed_payees j; fixed_commodities := fixed_commodities j;
     fixed_metadata := fixed_metadata j; was_loaded := was_loaded j;
     force_checking := b; checking_style := checking_style j |}.

Definition aliased_world : world :=
  sample_world
    (set_account_aliases {[ "Cash" := ["Assets"; "Cash"] ]} initialize).

(** [force_checking] is on, under [CHECK_ERROR]. *)
Definition forced_world : world :=
  sample_world
    (set_force_checking true (set_checking_style CHECK_ERROR initialize)).

(** The sample world with all its members; two payee mappings. *)
Definition sample_ext : world_ext :=
  {| base := sample_world initialize;
     rest := {| payee_mappings := [("Gro", "Grocer Ltd"); ("G", "G Stores")];
                sources := [] |} |}.

(** A mask that is a prefix of the text matches it. *)
Definition match_prefix : mask_t → string → bool :=
  λ m s, bool_decide (String.prefix m s = true).

Definition set_auto_xacts (l : list xact_ptr) (j : journal_t) : journal_t :=
  {| xacts := xacts j; auto_xacts := l; period_xacts := period_xacts j;
     account_aliases := account_aliases j;
     payees_for_unknown_accounts := payees_for_unknown_accounts j;
     tag_check_exprs := tag_check_exprs j; known_tags := known_tags j;
     checksum_map := checksum_map j; fixed_accounts := fixed_accounts j;
     fixed_payees := fixed_payees j; fixed_commodities := fixed_commodities j;
     fixed_metadata := fixed_metadata j; was_loaded := was_loaded j;
     force_checking := force_checking j; checking_style := checking_style j |}.

(** An automated transaction that gives posting 2 to the transaction it
    extends. *)
Definition posting_auto_extend : xact_ptr → xact_ptr → M heap unit :=
  λ _ x,
    modify (set_objs (set_xact_objs (alter
      (λ xo, {| xact_item := xact_item xo; journal := journal xo;
                payee := payee xo; posts := posts xo ++ [2%positive];
                xact_xdata := xact_xdata xo |}) x))).

(** The sample world with one automated transaction and with a
    transaction 3 that carries the UUID of transaction 1 and the tag
    Payee. *)
Definition tagged_world : world :=
  set_hp (set_objs (set_xact_objs
    (<[3%positive :=
         sample_xact CLEARED
           [uuid_tag "7f3a"; ("Payee", (Some (string_value "Grocer"), false))]
           []]>)))
    (sample_world (set_auto_xacts [4%positive] initialize)).

(** Transactions 1 and 2 are listed. *)
Definition paired_world : world :=
  sample_world (set_xacts [1%positive; 2%positive] initialize).

(** A parser that leaves a cache on transaction 1 and returns a count, and
    one that leaves the cache and throws. *)
Definition parse_caches (n : nat)
    : string → scope_ptr → account_ptr → string → M world nat :=
  λ _ _ _ _, put_xact_xdata 1%positive (Some 5);; mret n.
Definition parse_caches_throws (msg : string)
    : string → scope_ptr → account_ptr → string → M world nat :=
  λ _ _ _ _, put_xact_xdata 1%positive (Some 5);; throw_ (parse_error msg).

(** The journal [paired_world] with a cache on transaction 1, and with all
    its members. *)
Definition cached_ext : world_ext :=
  {| base := st (put_xact_xdata 1%positive (Some 5) paired_world);
     rest := {| payee_mappings := []; sources := [] |} |}.

(** The journal [fixed_world] after the account Expenses:Food, the
    commodity EUR and the tag Payee have been declared. *)
Definition declared_world : world :=
  st ((register_account match_any "Expenses:Food" None "j.dat:1: " [];;
       register_commodity "EUR" (ctx_int 0) "j.dat:2: ";;
       register_metadata (calc_says true) "Payee" NULL_VALUE (ctx_int 0)
         "j.dat:3: ") fixed_world).

(** The journal [twice_routed_world] once an account named Unknown exists. *)
Definition unknown_world : world :=
  st (lookup_account "Unknown" [] twice_routed_world).

(** A parser over the whole journal that returns a count, and a file
    system that holds the one file j.dat. *)
Definition parse_ext_returns (n : nat)
    : string → scope_ptr → account_ptr → string → M world_ext nat :=
  λ _ _ _ _, mret n.
Definition only_file (f : string) : string → bool :=
  λ g, bool_decide (g = f).
Definition content_of : string → string := λ _, "2012/02/27 Grocer".

(** ** Reasoning about runs *)

Section Runs.
Context {S : Type}.

Lemma run_bind {A B} (m : M S A) (k : A → M S B) s :
  (m ≫= k) s =
    match res (m s) with
    | Ret a =>
        Result (res (k a (st (m s)))) (st (k a (st (m s))))
               (out (m s) ++ out (k a (st (m s))))
    | Throw e => Result (Throw e) (st (m s)) (out (m s))
    | Fault => Result Fault (st (m s)) (out (m s))
    end.
Proof. reflexivity. Qed.

Lemma run_bind_ret {A B} (m : M S A) (k : A → M S B) s a s' l :
  m s = Result (Ret a) s' l →
  (m ≫= k) s = Result (res (k a s')) (st (k a s')) (l ++ out (k a s')).
Proof. intros E. rewrite run_bind, E. reflexivity. Qed.

Lemma result_eta {A} (r : result S A) : Result (res r) (st r) (out r) = r.
Proof. by destruct r. Qed.

(** A bind that returns went through both halves. *)
Lemma bind_returns {A B} (m : M S A) (k : A → M S B) s b s2 l :
  (m ≫= k) s = Result (Ret b) s2 l →
  ∃ a s1 l1 l2,
    m s = Result (Ret a) s1 l1 ∧ k a s1 = Result (Ret b) s2 l2 ∧
    l = l1 ++ l2.
Proof.
  rewrite run_bind. destruct (m s) as [[a|e|] s1 l1] eqn:E; simpl; [|done..].
  destruct (k a s1) as [r2 s2' l2] eqn:E2; simpl. intros [= -> -> <-].
  by exists a, s1, l1, l2.
Qed.

Lemma run_foreach_app {A} (l1 l2 : list A) (body : A → M S unit) s :
  foreach (l1 ++ l2) body s = (foreach l1 body ≫= λ _, foreach l2 body) s.
Proof.
  revert s. induction l1 as [|x l1 IH]; intros s; simpl.
  - rewrite run_bind. simpl. by rewrite result_eta.
  - rewrite !run_bind. destruct (body x s) as [[[]|e|] s1 o1]; simpl; [|done..].
    rewrite IH, run_bind.
    destruct (foreach l1 body s1) as [[[]|e|] s2 o2]; simpl;
      by rewrite ?app_assoc.
Qed.

Lemma foreach_app_then {A B} (l1 l2 : list A) (body : A → M S unit)
    (k : unit → M S B) s :
  (foreach (l1 ++ l2) body ≫= k) s
    = (foreach l1 body ≫= λ _, foreach l2 body ≫= k) s.
Proof.
  rewrite run_bind, run_foreach_app, !run_bind.
  destruct (foreach l1 body s) as [[[]|e|] s1 o1]; cbn [res st out]; [|done..].
  destruct (foreach l2 body s1) as [[[]|e|] s2 o2]; cbn [res st out];
    by rewrite ?app_assoc.
Qed.

Section Keeps.
Context (R : relation S) `{!PreOrder R}.

Lemma keeps_ret {A} (a : A) : keeps R (mret a : M S A).
Proof. intros s. simpl. reflexivity. Qed.

Lemma keeps_gets {A} (f : S → A) : keeps R (gets f).
Proof. intros s. simpl. reflexivity. Qed.

Lemma keeps_throw {A} e : keeps R (throw_ e : M S A).
Proof. intros s. simpl. reflexivity. Qed.

Lemma keeps_fault {A} : keeps R (fault : M S A).
Proof. intros s. simpl. reflexivity. Qed.

Lemma keeps_warning msg : keeps R (warning_ msg : M S unit).
Proof. intros s. simpl. reflexivity. Qed.

Lemma keeps_deref {A} (o : option A) : keeps R (deref o : M S A).
Proof. destruct o; intros s; simpl; reflexivity. Qed.

Lemma keeps_modify (f : S → S) : (∀ s, R s (f s)) → keeps R (modify f).
Proof. intros H s. apply H. Qed.

Lemma keeps_bind {A B} (m : M S A) (k : A → M S B) :
  keeps R m → (∀ a, keeps R (k a)) → keeps R (m ≫= k).
Proof.
  intros Hm Hk s. rewrite run_bind. specialize (Hm s).
  destruct (res (m s)) as [a| |]; simpl; [|done..].
  etrans; [exact Hm|apply Hk].
Qed.

Lemma keeps_foreach {A} (l : list A) (body : A → M S unit) :
  (∀ x, keeps R (body x)) → keeps R (foreach l body).
Proof.
  intros Hb. induction l as [|x l IH]; simpl.
  - apply (keeps_ret tt).
  - apply (keeps_bind (body x)); auto.
Qed.

Lemma keeps_if {A} (b : bool) (m1 m2 : M S A) :
  keeps R m1 → keeps R m2 → keeps R (if b then m1 else m2).
Proof. by destruct b. Qed.
End Keeps.
End Runs.

(** One step of a frame proof, following the shape of the computation. *)
Ltac frame_step :=
  lazymatch goal with
  | |- keeps _ (mret _) => apply keeps_ret
  | |- keeps _ (gets _) => apply keeps_gets
  | |- keeps _ (throw_ _) => apply keeps_throw
  | |- keeps _ fault => apply keeps_fault
  | |- keeps _ (warning_ _) => apply keeps_warning
  | |- keeps _ (deref _) => apply keeps_deref
  | |- keeps _ (if _ then _ else _) => apply keeps_if
  | |- keeps _ (foreach _ _) => apply keeps_foreach
  | |- keeps _ (_ ≫= _) => apply keeps_bind
  end.

Ltac frame :=
  repeat first
    [ match goal with |- ∀ _, _ => intro end
    | exact _ | assumption | frame_step ].

(** ** Silent computations *)

Section Silent.
Context {S : Type}.

Lemma silent_ret {A} (a : A) : silent (mret a : M S A).
Proof. by intros s. Qed.
Lemma silent_gets {A} (f : S → A) : silent (gets f).
Proof. by intros s. Qed.
Lemma silent_modify (f : S → S) : silent (modify f).
Proof. by intros s. Qed.
Lemma silent_throw {A} e : silent (throw_ e : M S A).
Proof. by intros s. Qed.
Lemma silent_fault {A} : silent (fault : M S A).
Proof. by intros s. Qed.
Lemma silent_deref {A} (o : option A) : silent (deref o : M S A).
Proof. by destruct o. Qed.
Lemma silent_if {A} (b : bool) (m1 m2 : M S A) :
  silent m1 → silent m2 → silent (if b then m1 else m2).
Proof. by destruct b. Qed.
Lemma silent_bind {A B} (m : M S A) (k : A → M S B) :
  silent m → (∀ a, silent (k a)) → silent (m ≫= k).
Proof.
  intros Hm Hk s. rewrite run_bind. specialize (Hm s).
  destruct (res (m s)); simpl; [|done..]. by rewrite Hm, Hk.
Qed.
Lemma silent_foreach {A} (l : list A) (body : A → M S unit) :
  (∀ x, silent (body x)) → silent (foreach l body).
Proof.
  intros Hb. induction l as [|x l IH]; cbn [foreach].
  - apply (silent_ret tt).
  - apply silent_bind; auto.
Qed.
End Silent.

Ltac quiet_step :=
  lazymatch goal with
  | |- silent (mret _) => apply silent_ret
  | |- silent (gets _) => apply silent_gets
  | |- silent (modify _) => apply silent_modify
  | |- silent (throw_ _) => apply silent_throw
  | |- silent fault => apply silent_fault
  | |- silent (deref _) => apply silent_deref
  | |- silent (if _ then _ else _) => apply silent_if
  | |- silent (foreach _ _) => apply silent_foreach
  | |- silent (_ ≫= _) => apply silent_bind
  end.

Ltac quiet :=
  repeat first
    [ match goal with |- ∀ _, _ => intro end | assumption | quiet_step ].

#[global] Instance registry_frame_preorder : PreOrder registry_frame.
Proof.
  split.
  - by intros w.
  - intros w1 w2 w3 [H1 H2] [H3 H4]. split; congruence.
Qed.

#[global] Instance validation_frame_preorder : PreOrder validation_frame.
Proof.
  split.
  - intros w. by repeat split.
  - intros w1 w2 w3 (H1 & H2 & H3) (H4 & H5 & H6). split; [congruence|].
    split; [set_solver|]. by etrans.
Qed.

#[global] Instance journal_frame_preorder : PreOrder journal_frame.
Proof.
  split.
  - by intros w.
  - intros w1 w2 w3 H1 H2. unfold journal_frame in *. congruence.
Qed.

#[global] Instance tree_frame_preorder : PreOrder tree_frame.
Proof.
  split.
  - by intros w.
  - intros w1 w2 w3 (H1 & H2 & H3) (H4 & H5 & H6). repeat split; congruence.
Qed.

#[global] Instance tags_frame_preorder : PreOrder tags_frame.
Proof.
  split.
  - intros w. split; [by destruct (jrnl w)|done].
  - intros w1 w2 w3 (H2 & H3) (H5 & H6). split; [|set_solver].
    rewrite H5, H2. by destruct (jrnl w1).
Qed.

Lemma validation_frame_registry w w' :
  validation_frame w w' → registry_frame w w'.
Proof. by intros (_ & _ & H). Qed.

Lemma journal_frame_registry w w' :
  journal_frame w w' → registry_frame w w'.
Proof. unfold journal_frame. intros H. split; by rewrite H. Qed.

Lemma keeps_weaken {S A} (R R' : relation S) (m : M S A) :
  (∀ s s', R s s' → R' s s') → keeps R m → keeps R' m.
Proof. intros H Hm s. apply H, Hm. Qed.

(** ** What metadata validation changes in the journal *)

Lemma context_not_uncleared_keeps R `{!PreOrder R} c :
  keeps R (context_not_uncleared c).
Proof.
  destruct c as [n|[x|]|[p|]];
    unfold context_not_uncleared, context_state, get_xact_opt, get_post_opt,
      get_xact, get_post; frame; intros w; apply keeps_deref, _.
Qed.

Lemma check_tag_known_tags key c loc :
  which c ≠ 0 → keeps tags_frame (check_tag_known key c loc).
Proof.
  intros Hw. unfold check_tag_known.
  apply keeps_bind; [exact _|frame|]. intros j.
  apply keeps_if; [|frame]. rewrite bool_decide_eq_false_2 by done. frame.
  - by apply context_not_uncleared_keeps, _.
  - apply keeps_modify. intros w. split; [done|]. simpl. set_solver.
Qed.

Lemma register_metadata_tags calc key value c loc :
  which c ≠ 0 → keeps tags_frame (register_metadata calc key value c loc).
Proof.
  intros Hw. unfold register_metadata. frame;
    [by apply check_tag_known_tags|].
  unfold check_metadata, check_one. frame.
  destruct c as [n|[y|]|[p|]]; simpl; frame.
Qed.

(** ** Facts about the journal's operations *)

Section JournalFacts.
Context (this : journal_ptr).
Context (finalize : xact_ptr → M xstore bool).
Context (auto_extend : xact_ptr → xact_ptr → M heap unit).
Context (calc : expr_t → xact_ptr + post_ptr → value_t → world → bool).

(** *** What extension and validation leave alone *)

Lemma keeps_get_xact R `{!PreOrder R} x : keeps R (get_xact x).
Proof. intros w. unfold get_xact. apply keeps_deref, _. Qed.

Lemma keeps_get_post R `{!PreOrder R} p : keeps R (get_post p).
Proof. intros w. unfold get_post. apply keeps_deref, _. Qed.

Lemma keeps_get_xact_opt R `{!PreOrder R} x : keeps R (get_xact_opt x).
Proof. destruct x; [by apply keeps_get_xact|by apply keeps_fault]. Qed.

Lemma keeps_get_post_opt R `{!PreOrder R} p : keeps R (get_post_opt p).
Proof. destruct p; [by apply keeps_get_post|by apply keeps_fault]. Qed.

Lemma call_finalize_frame x : keeps journal_frame (call_finalize finalize x).
Proof. by intros w. Qed.

Lemma call_auto_extend_frame a x :
  keeps journal_frame (call_auto_extend auto_extend a x).
Proof. by intros w. Qed.

Lemma extend_xact_frame x : keeps journal_frame (extend_xact auto_extend x).
Proof. unfold extend_xact. frame. apply call_auto_extend_frame. Qed.

Lemma context_state_frame R `{!PreOrder R} c : keeps R (context_state c).
Proof.
  destruct c; simpl; frame;
    [by apply keeps_get_xact_opt|by apply keeps_get_post_opt].
Qed.

Lemma context_not_uncleared_frame R `{!PreOrder R} c :
  keeps R (context_not_uncleared c).
Proof.
  destruct c; unfold context_not_uncleared; frame;
    by apply context_state_frame.
Qed.

Lemma context_scope_frame R `{!PreOrder R} c : keeps R (context_scope c).
Proof. destruct c as [|[]|[]]; simpl; frame. Qed.

Lemma check_metadata_frame R `{!PreOrder R} key value c loc :
  keeps R (check_metadata calc key value c loc).
Proof.
  unfold check_metadata, check_one. frame. by apply context_scope_frame.
Qed.

Lemma learn_tag_frame key :
  keeps validation_frame
    (modify (set_jrnl (λ j, set_known_tags ({[key]} ∪ known_tags j) j))).
Proof.
  apply keeps_modify. intros w. split; [done|]. split; [|done].
  simpl. set_solver.
Qed.

Lemma check_tag_known_frame key c loc :
  keeps validation_frame (check_tag_known key c loc).
Proof.
  unfold check_tag_known. frame;
    try apply learn_tag_frame; try apply context_not_uncleared_frame, _.
  apply keeps_modify. intros w. by repeat split.
Qed.

Lemma register_metadata_frame key value c loc :
  keeps validation_frame (register_metadata calc key value c loc).
Proof.
  unfold register_metadata. frame;
    [apply check_tag_known_frame|apply check_metadata_frame, _].
Qed.

Lemma check_all_metadata_frame c :
  keeps validation_frame (check_all_metadata calc c).
Proof.
  unfold check_all_metadata. frame.
  - unfold context_metadata.
    destruct (match c with ctx_xact x => x | _ => None end); frame;
      [apply keeps_get_xact, _|apply keeps_get_post_opt, _].
  - destruct a as [m|]; frame.
    destruct (x.2.1); apply register_metadata_frame.
Qed.

Lemma extend_and_check_frame x :
  keeps registry_frame (extend_and_check auto_extend calc x).
Proof.
  unfold extend_and_check. frame.
  - eapply keeps_weaken; [apply journal_frame_registry|].
    apply extend_xact_frame.
  - eapply keeps_weaken; [apply validation_frame_registry|].
    apply check_all_metadata_frame.
  - apply keeps_get_xact, _.
  - eapply keeps_weaken; [apply validation_frame_registry|].
    apply check_all_metadata_frame.
Qed.

(** *** [add_xact] *)

Lemma get_xact_returns x w xo w' l :
  get_xact x w = Result (Ret xo) w' l →
  xact_objs (objs (hp w)) !! x = Some xo ∧ w' = w ∧ l = [].
Proof.
  unfold get_xact. destruct (xact_objs (objs (hp w)) !! x); simpl; [|done].
  by intros [= -> -> <-].
Qed.

Lemma get_xact_run x w xo :
  xact_objs (objs (hp w)) !! x = Some xo → get_xact x w = Result (Ret xo) w [].
Proof. unfold get_xact. by intros ->. Qed.

Lemma silent_get_xact x : silent (get_xact x).
Proof. intros w. unfold get_xact. apply silent_deref. Qed.

Lemma put_journal_returns x j w w' l :
  put_journal x j w = Result (Ret tt) w' l →
  is_Some (xact_objs (objs (hp w)) !! x) ∧
  w' = set_hp (set_objs (assign_journal x j)) w ∧ l = [].
Proof.
  unfold put_journal.
  intros (xo & w1 & l1 & l2 & H1 & H2 & ->)%bind_returns.
  apply get_xact_returns in H1 as (H1 & -> & ->).
  injection H2 as <- <-. eauto.
Qed.

Lemma put_journal_run x j w :
  is_Some (xact_objs (objs (hp w)) !! x) →
  put_journal x j w = Result (Ret tt) (set_hp (set_objs (assign_journal x j)) w) [].
Proof.
  intros [xo H]. unfold put_journal.
  by rewrite (run_bind_ret _ _ _ _ _ _ (get_xact_run _ _ _ H)).
Qed.

Lemma add_xact_returns x w b wf l :
  add_xact this finalize auto_extend calc x w = Result (Ret b) wf l →
  is_Some (xact_objs (objs (hp w)) !! x) ∧
  ∃ ok w1 l1,
    call_finalize finalize x
      (set_hp (set_objs (assign_journal x (Some this))) w)
      = Result (Ret ok) w1 l1 ∧
    if ok then
      ∃ w4 l4 xo,
        extend_and_check auto_extend calc x w1 = Result (Ret tt) w4 l4 ∧
        xact_objs (objs (hp w4)) !! x = Some xo ∧ l = l1 ++ l4 ∧
        match get_tag "UUID" (xact_item xo) with
        | None => b = true ∧ wf = push_xact x w4
        | Some ref =>
            match checksum_map (jrnl w4) !! to_string ref with
            | None => b = true ∧ wf = push_xact x (claim_checksum (to_string ref) x w4)
            | Some _ => b = false ∧ wf = detach x w4
            end
        end
    else
      b = false ∧ is_Some (xact_objs (objs (hp w1)) !! x) ∧
      wf = detach x w1 ∧ l = l1.
Proof.
  unfold add_xact.
  intros ([] & w0 & l0 & l' & H0 & H & ->)%bind_returns.
  apply put_journal_returns in H0 as (Hx & -> & ->). split; [done|].
  apply bind_returns in H as (ok & w1 & l1 & l2 & H1 & H & ->).
  exists ok, w1, l1. split; [done|]. destruct ok; simpl in H.
  - apply bind_returns in H as ([] & w4 & l4 & l5 & H4 & H & ->).
    apply bind_returns in H as (xo & w5 & l6 & l7 & Hxo & H & ->).
    apply get_xact_returns in Hxo as (Hxo & -> & ->).
    exists w4, l4, xo. split; [done|]. split; [done|].
    apply bind_returns in H as (ins & w6 & l8 & l9 & Hins & H & ->).
    destruct (get_tag "UUID" (xact_item xo)) as [ref|].
    + unfold checksum_map_insert in Hins.
      apply bind_returns in Hins as (j & w7 & l10 & l11 & Hj & Hins & ->).
      injection Hj as <- <- <-.
      destruct (checksum_map (jrnl w4) !! to_string ref).
      * injection Hins as <- <- <-. simpl in H.
        apply bind_returns in H as ([] & w8 & l12 & l13 & Hp & H & ->).
        apply put_journal_returns in Hp as (_ & -> & ->).
        injection H as <- <- <-. by rewrite !app_nil_r.
      * apply bind_returns in Hins as ([] & w8 & l12 & l13 & Hm & Hins & ->).
        injection Hm as <- <-. injection Hins as <- <- <-. simpl in H.
        apply bind_returns in H as ([] & w9 & l14 & l15 & Hm & H & ->).
        injection Hm as <- <-. injection H as <- <- <-.
        by rewrite !app_nil_r.
    + injection Hins as <- <- <-. simpl in H.
      apply bind_returns in H as ([] & w9 & l14 & l15 & Hm & H & ->).
      injection Hm as <- <-. injection H as <- <- <-.
      by rewrite !app_nil_r.
  - apply bind_returns in H as ([] & w4 & l4 & l5 & Hp & H & ->).
    apply put_journal_returns in Hp as (Hx1 & -> & ->).
    injection H as <- <- <-. by rewrite !app_nil_r.
Qed.

Lemma call_finalize_jrnl x w o w' l :
  call_finalize finalize x w = Result o w' l → jrnl w' = jrnl w.
Proof. unfold call_finalize, zoom. by intros [= _ <- _]. Qed.

Lemma detach_lookup x w xo :
  xact_objs (objs (hp (detach x w))) !! x = Some xo → journal xo = None.
Proof.
  unfold detach, assign_journal. simpl. rewrite lookup_alter_eq.
  destruct (xact_objs (objs (hp w)) !! x); simpl; [|done]. by intros [= <-].
Qed.

Lemma extend_and_check_registry x w o w' l :
  extend_and_check auto_extend calc x w = Result o w' l →
  xacts (jrnl w') = xacts (jrnl w) ∧
  checksum_map (jrnl w') = checksum_map (jrnl w).
Proof.
  intros H. pose proof (extend_and_check_frame x w) as Hf.
  by rewrite H in Hf.
Qed.

(** C5: when [finalize] returns false, [add_xact] returns false having
    cleared the back-reference of the transaction and done nothing else:
    the journal's members (transaction list, checksum registry, known
    tags, fixed flags), the account tree and the commodity pool are as
    before the call, and the transaction objects are as [finalize] left
    them.  Extension and validation are not run. *)
Theorem add_xact_finalize_fails x w s1 l1 :
  is_Some (xact_objs (objs (hp w)) !! x) →
  finalize x (assign_journal x (Some this) (objs (hp w)))
    = Result (Ret false) s1 l1 →
  is_Some (xact_objs s1 !! x) →
  let r := add_xact this finalize auto_extend calc x w in
  res r = Ret false ∧ out r = l1 ∧
  jrnl (st r) = jrnl w ∧
  master (hp (st r)) = master (hp w) ∧
  pool (hp (st r)) = pool (hp w) ∧
  objs (hp (st r)) = assign_journal x None s1 ∧
  journal <$> xact_objs (objs (hp (st r))) !! x = Some None.
Proof.
  intros Hx Hfin Hx1 r. subst r. unfold add_xact.
  rewrite (run_bind_ret _ _ _ _ _ _ (put_journal_run _ _ _ Hx)).
  rewrite run_bind. unfold call_finalize at 1, zoom. simpl. rewrite Hfin. simpl.
  rewrite run_bind, put_journal_run by done. simpl.
  rewrite app_nil_r. repeat split; try done.
  destruct Hx1 as [xo Hxo]. unfold assign_journal. simpl.
  by rewrite lookup_alter_eq, Hxo.
Qed.

(** *** What validation learns *)

(** The state of a record is read from the objects only. *)
Lemma context_state_objects c s w w' :
  hp w' = hp w →
  context_state c w = Result (Ret s) w [] →
  context_state c w' = Result (Ret s) w' [].
Proof.
  intros Hh. destruct c as [n|[x|]|[p|]]; simpl; try done.
  - rewrite !run_bind. unfold get_xact. rewrite Hh.
    destruct (xact_objs (objs (hp w)) !! x); simpl; [|done]. congruence.
  - rewrite !run_bind. unfold get_post. rewrite Hh.
    destruct (post_objs (objs (hp w)) !! p); simpl; [|done]. congruence.
Qed.

(** Lines 255-267 on a record that is not [UNCLEARED], tags not fixed:
    the tag is known afterwards. *)
Lemma register_metadata_learns key value c loc s w w' l :
  register_metadata calc key value c loc w = Result (Ret tt) w' l →
  context_state c w = Result (Ret s) w [] → s ≠ UNCLEARED →
  fixed_metadata (jrnl w) = false →
  key ∈ known_tags (jrnl w').
Proof.
  unfold register_metadata.
  intros ([] & wa & la & lb & Ht & Hc & ->)%bind_returns Hs Hne Hf.
  assert (key ∈ known_tags (jrnl wa)) as Hk.
  { revert Ht. unfold check_tag_known. erewrite run_bind_ret by reflexivity.
    destruct (decide (key ∈ known_tags (jrnl w))) as [Hin|Hin].
    - rewrite bool_decide_eq_false_2 by (by intros ?).
      by intros [= <- _].
    - rewrite bool_decide_eq_true_2 by done.
      assert (which c ≠ 0) as Hw by (by destruct c).
      rewrite bool_decide_eq_false_2 by done. rewrite Hf. cbn [negb].
      assert (context_not_uncleared c w = Result (Ret true) w []) as Hn.
      { destruct c as [n|x|p]; [done|..]; unfold context_not_uncleared;
          erewrite run_bind_ret by exact Hs;
          by rewrite bool_decide_eq_false_2. }
      erewrite run_bind_ret by exact Hn. cbv beta iota.
      intros [= <- _]. simpl. set_solver. }
  assert (validation_frame wa w') as (_ & Hsub & _).
  { assert (keeps validation_frame
              (if negb (is_null value)
               then check_metadata calc key value c loc else mret tt)) as Hk'
      by (frame; apply check_metadata_frame, _).
    specialize (Hk' wa). by rewrite Hc in Hk'. }
  by apply Hsub.
Qed.

(** The loop of lines 290-300 on such a record: every tag of the map is
    known afterwards. *)
Lemma foreach_register_learns c s (md : string_map) w w' l :
  foreach md (λ pair,
    match pair.2.1 with
    | Some value => register_metadata calc pair.1 value c EmptyString
    | None => register_metadata calc pair.1 NULL_VALUE c EmptyString
    end) w = Result (Ret tt) w' l →
  context_state c w = Result (Ret s) w [] → s ≠ UNCLEARED →
  fixed_metadata (jrnl w) = false →
  ∀ pair, pair ∈ md → pair.1 ∈ known_tags (jrnl w').
Proof.
  assert (which c ≠ 0 → ∀ pair : string * tag_data_t,
            keeps validation_frame
              (match pair.2.1 with
               | Some value => register_metadata calc pair.1 value c EmptyString
               | None => register_metadata calc pair.1 NULL_VALUE c EmptyString
               end) ∧
            keeps tags_frame
              (match pair.2.1 with
               | Some value => register_metadata calc pair.1 value c EmptyString
               | None => register_metadata calc pair.1 NULL_VALUE c EmptyString
               end)) as Hbody.
  { intros Hw pair. destruct (pair.2.1);
      (split; [apply register_metadata_frame|by apply register_metadata_tags]). }
  revert w l. induction md as [|p md IH]; intros w l Hrun Hs Hne Hf pair Hin.
  { by apply elem_of_nil in Hin. }
  assert (which c ≠ 0) as Hw by (by destruct c).
  cbn [foreach] in Hrun.
  apply bind_returns in Hrun as ([] & w1 & l1 & l2 & H1 & H2 & ->).
  destruct (Hbody Hw p) as [Hv Ht].
  specialize (Hv w). specialize (Ht w). rewrite H1 in Hv, Ht.
  cbn [st] in Hv, Ht. destruct Hv as (Hh & _ & _). destruct Ht as [Hj _].
  assert (fixed_metadata (jrnl w1) = false) as Hf1 by (by rewrite Hj).
  pose proof (context_state_objects c s w w1 Hh Hs) as Hs1.
  apply elem_of_cons in Hin as [->|Hin].
  - assert (p.1 ∈ known_tags (jrnl w1)) as Hk.
    { destruct (p.2.1); by eapply register_metadata_learns. }
    assert (keeps validation_frame
              (foreach md (λ pair : string * tag_data_t,
                 match pair.2.1 with
                 | Some value =>
                     register_metadata calc pair.1 value c EmptyString
                 | None => register_metadata calc pair.1 NULL_VALUE c EmptyString
                 end))) as Hloop
      by (apply keeps_foreach; [exact _|]; intros q; apply (Hbody Hw q)).
    specialize (Hloop w1). rewrite H2 in Hloop.
    destruct Hloop as (_ & Hsub & _). by apply Hsub.
  - by eapply IH.
Qed.

(** Lines 286-302 for a transaction that is not [UNCLEARED], tags not
    fixed: every tag it carries is known afterwards. *)
Lemma check_all_metadata_learns x xo md w w' l :
  check_all_metadata calc (ctx_xact (Some x)) w = Result (Ret tt) w' l →
  xact_objs (objs (hp w)) !! x = Some xo →
  metadata (xact_item xo) = Some md →
  _state (xact_item xo) ≠ UNCLEARED →
  fixed_metadata (jrnl w) = false →
  ∀ pair, pair ∈ md → pair.1 ∈ known_tags (jrnl w').
Proof.
  intros Hrun Hx Hmd Hs Hf. unfold check_all_metadata in Hrun.
  assert (context_metadata (ctx_xact (Some x)) w = Result (Ret (Some md)) w [])
    as Hcm.
  { unfold context_metadata.
    erewrite run_bind_ret by (by apply get_xact_run). by rewrite Hmd. }
  apply bind_returns in Hrun as (mdo & w0 & l0 & l1 & Hcm' & Hrun & ->).
  rewrite Hcm in Hcm'. injection Hcm' as <- <- <-.
  eapply (foreach_register_learns (ctx_xact (Some x))
            (_state (xact_item xo))); try done.
  simpl. by erewrite run_bind_ret by (by apply get_xact_run).
Qed.

(** C10: a transaction turned away at the checksum step leaves behind
    everything the earlier steps did.  Every automated transaction of the
    journal has been applied to it, in order, and the validation of its
    metadata and of the metadata of its postings has run on the result;
    the final state is the one so reached, with only the back-reference
    of the transaction cleared.  What validation learned remains: the set
    of known tags has not shrunk, and if the transaction was not
    [UNCLEARED] and the tags were not fixed, every tag it carried after
    extension is known.  The transaction list and the checksum registry
    are those from before the call. *)
Theorem add_xact_rejection_keeps_effects x w w1 l1 wf l :
  call_finalize finalize x
    (set_hp (set_objs (assign_journal x (Some this))) w)
    = Result (Ret true) w1 l1 →
  add_xact this finalize auto_extend calc x w = Result (Ret false) wf l →
  ∃ w2 l2 w4 l4 xo ref y,
    foreach (auto_xacts (jrnl w))
      (λ auto_xact, call_auto_extend auto_extend auto_xact x) w1
      = Result (Ret tt) w2 l2 ∧
    (check_all_metadata calc (ctx_xact (Some x));;
     xo ← get_xact x;
     foreach (posts xo)
       (λ post, check_all_metadata calc (ctx_post (Some post)))) w2
      = Result (Ret tt) w4 l4 ∧
    extend_and_check auto_extend calc x w1 = Result (Ret tt) w4 (l2 ++ l4) ∧
    xact_objs (objs (hp w4)) !! x = Some xo ∧
    get_tag "UUID" (xact_item xo) = Some ref ∧
    checksum_map (jrnl w4) !! to_string ref = Some y ∧
    wf = detach x w4 ∧ l = l1 ++ l2 ++ l4 ∧
    jrnl wf = jrnl w4 ∧ master (hp wf) = master (hp w4) ∧
    pool (hp wf) = pool (hp w4) ∧
    post_objs (objs (hp wf)) = post_objs (objs (hp w4)) ∧
    xact_objs (objs (hp wf))
      = <[x := set_journal None xo]> (xact_objs (objs (hp w4))) ∧
    xact_objs (objs (hp wf)) !! x = Some (set_journal None xo) ∧
    known_tags (jrnl w) ⊆ known_tags (jrnl wf) ∧
    (∀ xo2 md pair,
       xact_objs (objs (hp w2)) !! x = Some xo2 →
       metadata (xact_item xo2) = Some md →
       _state (xact_item xo2) ≠ UNCLEARED →
       fixed_metadata (jrnl w) = false →
       pair ∈ md → pair.1 ∈ known_tags (jrnl wf)) ∧
    xacts (jrnl wf) = xacts (jrnl w) ∧
    checksum_map (jrnl wf) = checksum_map (jrnl w).
Proof.
  intros Hfin Hadd.
  apply add_xact_returns in Hadd as (Hx & ok & w1' & l1' & Hfin' & H).
  rewrite Hfin in Hfin'. injection Hfin' as <- <- <-.
  destruct H as (w4 & l4 & xo & H4 & Hxo & -> & H).
  destruct (get_tag "UUID" (xact_item xo)) as [ref|] eqn:Htag; [|by destruct H].
  destruct (checksum_map (jrnl w4) !! to_string ref) as [y|] eqn:Hy;
    [|by destruct H].
  destruct H as [_ ->].
  pose proof (call_finalize_jrnl _ _ _ _ _ Hfin) as Hj. simpl in Hj.
  pose proof H4 as Hsteps. unfold extend_and_check in Hsteps.
  apply bind_returns in Hsteps as ([] & w2 & l2 & l3 & Hext & Hval & ->).
  assert (jrnl w2 = jrnl w1) as Hj2.
  { pose proof (extend_xact_frame x w1) as Hk. by rewrite Hext in Hk. }
  unfold extend_xact in Hext.
  apply bind_returns in Hext as (j & w0 & l0 & l2' & Hg & Hext & ->).
  injection Hg as <- <- <-. rewrite Hj in Hext. cbn [app].
  pose proof Hval as Hval'.
  apply bind_returns in Hval' as ([] & w3 & l5 & l6 & Hcx & Hcp & _).
  assert (known_tags (jrnl w3) ⊆ known_tags (jrnl w4)) as H34.
  { match type of Hcp with ?m w3 = _ =>
      assert (keeps validation_frame m) as Hk
    end.
    { frame; [apply keeps_get_xact, _|apply check_all_metadata_frame]. }
    specialize (Hk w3). rewrite Hcp in Hk. by destruct Hk as (_ & Hk & _). }
  assert (known_tags (jrnl w2) ⊆ known_tags (jrnl w4)) as H24.
  { pose proof (check_all_metadata_frame (ctx_xact (Some x)) w2) as Hk.
    rewrite Hcx in Hk. destruct Hk as (_ & Hk & _). set_solver. }
  cbn [app] in *. exists w2, l2', w4, l3, xo, ref, y.
  split; [done|]. split; [done|]. split; [done|].
  split; [done|]. split; [done|]. split; [done|]. split; [done|].
  split; [done|]. split; [done|]. split; [done|]. split; [done|].
  split; [done|]. split.
  { unfold detach, assign_journal. simpl. apply map_eq. intros z.
    destruct (decide (z = x)) as [->|Hne].
    - by rewrite lookup_alter_eq, lookup_insert_eq, Hxo.
    - by rewrite lookup_alter_ne, lookup_insert_ne. }
  split.
  { unfold detach, assign_journal. simpl. by rewrite lookup_alter_eq, Hxo. }
  split.
  { simpl. rewrite <- Hj, <- Hj2. exact H24. }
  split.
  { intros xo2 md pair Hx2 Hmd Hs Hf Hin. simpl. apply H34.
    eapply check_all_metadata_learns; try done. by rewrite Hj2, Hj. }
  simpl. apply extend_and_check_registry in H4 as [-> ->].
  by rewrite Hj.
Qed.

Lemma commits_or_keeps_bind {A} R `{!PreOrder R} (m : M world A)
    (k : A → M world bool) :
  keeps R m → (∀ a, commits_or_keeps R (k a)) → commits_or_keeps R (m ≫= k).
Proof.
  intros Hm Hk w. rewrite run_bind. specialize (Hm w).
  destruct (res (m w)) as [a| |]; cbn [res st]; [|by right..].
  destruct (Hk a (st (m w))) as [?|?]; [by left|right]. by etrans.
Qed.

Lemma commits_or_keeps_keeps R (m : M world bool) :
  keeps R m → commits_or_keeps R m.
Proof. intros Hm w. right. apply Hm. Qed.

Lemma put_journal_frame x j : keeps registry_frame (put_journal x j).
Proof.
  unfold put_journal. frame; [apply keeps_get_xact, _|].
  apply keeps_modify. by intros w.
Qed.

(** Whatever its outcome, a call of [add_xact] that does not return true
    leaves the transaction list and the checksum registry as they were. *)
Lemma add_xact_commits_or_keeps x :
  commits_or_keeps registry_frame (add_xact this finalize auto_extend calc x).
Proof.
  unfold add_xact.
  apply commits_or_keeps_bind; [apply _|apply put_journal_frame|]. intros _.
  apply commits_or_keeps_bind; [apply _| |].
  { eapply keeps_weaken; [apply journal_frame_registry|].
    apply call_finalize_frame. }
  intros [|]; cbn [negb].
  - apply commits_or_keeps_bind; [apply _|apply extend_and_check_frame|].
    intros _.
    apply commits_or_keeps_bind; [apply _|apply keeps_get_xact, _|].
    intros xo w. rewrite run_bind.
    destruct (get_tag "UUID" (xact_item xo)) as [ref|]; [|by left].
    unfold checksum_map_insert. rewrite run_bind. cbn [gets res st out].
    destruct (checksum_map (jrnl w) !! to_string ref); [|by left].
    right. cbn [mret M_ret ret_ res st negb].
    pose proof (put_journal_frame x None w) as Hp. rewrite run_bind.
    by destruct (res (put_journal x None w)).
  - apply commits_or_keeps_keeps. frame. apply put_journal_frame.
Qed.

(** C1: two transactions with one UUID value, submitted one after the
    other.  The tag of a transaction is the one it carries when line 325
    reads it; nothing changes it afterwards.  The first transaction,
    accepted, is in the transaction list and owns the UUID in the checksum
    registry.  The second is never committed: whatever the outcome of its
    call, the list is as it was and does not hold it, and the registry
    still gives the first; and when the call returns, it returns false
    and the back-reference of the second transaction is null. *)
Theorem add_xact_same_uuid X Y w0 w1 l1 u oX oY refX refY :
  add_xact this finalize auto_extend calc X w0 = Result (Ret true) w1 l1 →
  xact_objs (objs (hp w1)) !! X = Some oX →
  get_tag "UUID" (xact_item oX) = Some refX → to_string refX = u →
  Y ∉ xacts (jrnl w1) →
  let r := add_xact this finalize auto_extend calc Y w1 in
  xact_objs (objs (hp (st r))) !! Y = Some oY →
  get_tag "UUID" (xact_item oY) = Some refY → to_string refY = u →
  (X ∈ xacts (jrnl w1) ∧ checksum_map (jrnl w1) !! u = Some X) ∧
  res r ≠ Ret true ∧
  xacts (jrnl (st r)) = xacts (jrnl w1) ∧ (Y ∉ xacts (jrnl (st r))) ∧
  checksum_map (jrnl (st r)) !! u = Some X ∧
  (∀ b, res r = Ret b → b = false ∧ journal oY = None).
Proof.
  intros HX HoX HtX Hu HY r HoY HtY Hu'.
  assert (X ∈ xacts (jrnl w1) ∧ checksum_map (jrnl w1) !! u = Some X)
    as [HinX HcX].
  { apply add_xact_returns in HX as (_ & ok & w' & l' & _ & H).
    destruct ok; [|by destruct H].
    destruct H as (w4 & l4 & xo & _ & Hxo & _ & H).
    destruct (get_tag "UUID" (xact_item xo)) as [ref|] eqn:Htag.
    - destruct (checksum_map (jrnl w4) !! to_string ref); [by destruct H|].
      destruct H as [_ ->]. simpl in *.
      assert (xo = oX) as -> by congruence.
      assert (ref = refX) as -> by congruence. rewrite Hu.
      split; [set_solver|]. by rewrite lookup_insert_eq.
    - destruct H as [_ ->]. simpl in HoX. congruence. }
  split; [done|].
  (* what a returning call has done *)
  assert (∀ b, res r = Ret b → b = false ∧ journal oY = None) as Hret.
  { intros b Hb.
    assert (add_xact this finalize auto_extend calc Y w1
              = Result (Ret b) (st r) (out r)) as Hadd
      by (rewrite <- Hb; symmetry; apply result_eta).
    apply add_xact_returns in Hadd as (_ & ok & w' & l' & Hfin & H).
    pose proof (call_finalize_jrnl _ _ _ _ _ Hfin) as Hj. simpl in Hj.
    destruct ok.
    - destruct H as (w4 & l4 & xo & H4 & Hxo & _ & H).
      apply extend_and_check_registry in H4 as [Hl Hc].
      rewrite Hj in Hl, Hc.
      destruct (get_tag "UUID" (xact_item xo)) as [ref|] eqn:Htag.
      + destruct (checksum_map (jrnl w4) !! to_string ref) eqn:Href.
        * destruct H as [-> Hst]. split; [done|].
          rewrite Hst in HoY. by apply (detach_lookup Y w4).
        * destruct H as [_ Hst]. rewrite Hst in HoY. simpl in HoY.
          assert (xo = oY) as -> by congruence.
          assert (ref = refY) as -> by congruence.
          rewrite Hu', Hc, HcX in Href. done.
      + destruct H as [_ Hst]. rewrite Hst in HoY. simpl in HoY. congruence.
    - destruct H as (-> & _ & Hst & _). split; [done|].
      rewrite Hst in HoY. by apply (detach_lookup Y w'). }
  assert (res r ≠ Ret true) as Hnt.
  { intros Hb. by destruct (Hret true Hb). }
  destruct (add_xact_commits_or_keeps Y w1) as [?|[Hl Hc]]; [done|].
  fold r in Hl, Hc. rewrite Hl, Hc.
  split; [exact Hnt|]. split; [done|]. split; [exact HY|].
  split; [exact HcX|exact Hret].
Qed.

End JournalFacts.

(** ** [remove_xact] *)

Lemma list_find_first (x : xact_ptr) (l1 l2 : list xact_ptr) :
  x ∉ l1 → list_find (λ y, y = x) (l1 ++ x :: l2) = Some (length l1, x).
Proof.
  intros Hn. apply list_find_Some. split; [|split; [done|]].
  - by rewrite list_lookup_middle.
  - intros j y Hj Hlt ->. apply Hn.
    rewrite lookup_app_l in Hj by done. by eapply list_elem_of_lookup_2.
Qed.

(** C8: [remove_xact] on a transaction that is not in the list returns
    false and changes nothing; on one that is in the list it returns true,
    erases its first occurrence and nothing else from the list, and clears
    its back-reference; the checksum registry is the same afterwards in
    both cases. *)
Theorem remove_xact_spec (x : xact_ptr) (w : world) :
  (x ∉ xacts (jrnl w) → remove_xact x w = Result (Ret false) w []) ∧
  (x ∈ xacts (jrnl w) →
   is_Some (xact_objs (objs (hp w)) !! x) →
   ∃ l1 l2,
     xacts (jrnl w) = l1 ++ x :: l2 ∧ (x ∉ l1) ∧
     remove_xact x w
       = Result (Ret true) (detach x (set_jrnl (set_xacts (l1 ++ l2)) w)) [] ∧
     xacts (jrnl (st (remove_xact x w))) = l1 ++ l2 ∧
     journal <$> xact_objs (objs (hp (st (remove_xact x w)))) !! x = Some None ∧
     checksum_map (jrnl (st (remove_xact x w))) = checksum_map (jrnl w)).
Proof.
  split.
  - intros Hn. unfold remove_xact. rewrite run_bind. simpl.
    destruct (list_find (λ y, y = x) (xacts (jrnl w))) as [[i y]|] eqn:E.
    + apply list_find_Some in E as (Hi & -> & _).
      destruct Hn. by eapply list_elem_of_lookup_2.
    + simpl. by destruct w.
  - intros Hin [xo Hxo].
    apply list_elem_of_split_l in Hin as (l1 & l2 & Hl & Hn).
    exists l1, l2. split; [done|]. split; [done|].
    assert (remove_xact x w
      = Result (Ret true) (detach x (set_jrnl (set_xacts (l1 ++ l2)) w)) [])
      as ->.
    { unfold remove_xact. erewrite run_bind_ret by reflexivity.
      rewrite Hl, (list_find_first x l1 l2 Hn).
      erewrite run_bind_ret by reflexivity.
      erewrite run_bind_ret by (apply put_journal_run; simpl; eauto).
      simpl. unfold detach, set_jrnl. by rewrite Hl, delete_middle. }
    simpl. repeat split; try done.
    unfold assign_journal. simpl. by rewrite lookup_alter_eq, Hxo.
Qed.

(** ** The account tree *)

Lemma name_alter_account f p a :
  (∀ c, name (f c) = name c) → name (alter_account f p a) = name a.
Proof. intros Hf. destruct p; simpl; [apply Hf|done]. Qed.

Lemma find_alter_child g n l c :
  (∀ c, name (g c) = name c) →
  List.find (has_name n) l = Some c →
  List.find (has_name n) (alter_child g n l) = Some (g c).
Proof.
  intros Hg. induction l as [|d l IH]; simpl; [done|].
  destruct (has_name n d) eqn:E.
  - intros [= ->]. simpl. unfold has_name in *. by rewrite Hg, E.
  - intros H. simpl. rewrite E. auto.
Qed.

(** Updating an account in place is seen through its pointer. *)
Lemma account_at_alter f p a c :
  (∀ c, name (f c) = name c) →
  account_at p a = Some c →
  account_at p (alter_account f p a) = Some (f c).
Proof.
  intros Hf. revert a. induction p as [|n p IH]; intros a; simpl.
  - by intros [= ->].
  - destruct (List.find (has_name n) (accounts a)) as [d|] eqn:E; [|done].
    intros Hd.
    rewrite (find_alter_child _ _ _ _ (λ c, name_alter_account f p c Hf) E).
    by apply IH.
Qed.

Section AccountFacts.
Context (mask_match : mask_t → string → bool).

Lemma get_account_run a w acct :
  account_at a (master (hp w)) = Some acct →
  get_account a w = Result (Ret acct) w [].
Proof. unfold get_account. by intros ->. Qed.

Lemma get_post_run p w po :
  post_objs (objs (hp w)) !! p = Some po → get_post p w = Result (Ret po) w [].
Proof. unfold get_post. by intros ->. Qed.

Lemma add_flags_account_run a w acct :
  account_at a (master (hp w)) = Some acct →
  add_flags_account a w
    = Result (Ret tt)
        (set_hp (set_master (alter_account add_flags_ACCOUNT_KNOWN a)) w) [].
Proof.
  intros H. unfold add_flags_account.
  by erewrite run_bind_ret by (by apply get_account_run).
Qed.

Lemma keeps_get_account R `{!PreOrder R} a : keeps R (get_account a).
Proof. intros w. unfold get_account. apply keeps_deref, _. Qed.

Lemma silent_get_account a : silent (get_account a).
Proof. intros w. unfold get_account. apply silent_deref. Qed.

Lemma silent_get_post_opt p : silent (get_post_opt p).
Proof.
  destruct p; [|apply silent_fault]. intros w. unfold get_post_opt, get_post.
  apply silent_deref.
Qed.

Lemma silent_get_xact_opt x : silent (get_xact_opt x).
Proof.
  destruct x; [|apply silent_fault]. intros w. unfold get_xact_opt, get_xact.
  apply silent_deref.
Qed.

Lemma find_account_frame base nm : keeps tree_frame (find_account base nm).
Proof.
  unfold find_account. frame.
  - apply keeps_get_account, _.
  - apply keeps_modify. by intros w.
Qed.

Lemma find_account_silent base nm : silent (find_account base nm).
Proof.
  unfold find_account. quiet.
  apply silent_get_account.
Qed.

Lemma payee_for_unknown_account_frame R `{!PreOrder R} l post result :
  keeps R (payee_for_unknown_account mask_match l post result).
Proof.
  induction l as [|v l IH]; simpl; frame;
    [by apply keeps_get_post_opt|by apply keeps_get_xact_opt].
Qed.

Lemma payee_for_unknown_account_silent l post result :
  silent (payee_for_unknown_account mask_match l post result).
Proof.
  induction l as [|v l IH]; simpl; quiet;
    [apply silent_get_post_opt|apply silent_get_xact_opt].
Qed.

Lemma resolve_account_frame nm post ma :
  keeps tree_frame (resolve_account mask_match nm post ma).
Proof.
  unfold resolve_account, lookup_account, route_unknown_account. frame.
  - destruct (if bool_decide _ then _ else _); frame.
    apply find_account_frame.
  - apply keeps_get_account, _.
  - apply payee_for_unknown_account_frame, _.
Qed.

Lemma resolve_account_silent nm post ma :
  silent (resolve_account mask_match nm post ma).
Proof.
  unfold resolve_account, lookup_account, route_unknown_account. quiet.
  - destruct (if bool_decide _ then _ else _); quiet.
    apply find_account_silent.
  - apply silent_get_account.
  - apply payee_for_unknown_account_silent.
Qed.

(** What is known of a state in which a name has been resolved. *)
Lemma resolve_account_returns nm post ma w o w1 l :
  resolve_account mask_match nm post ma w = Result o w1 l →
  jrnl w1 = jrnl w ∧ objs (hp w1) = objs (hp w) ∧ pool (hp w1) = pool (hp w) ∧
  l = [].
Proof.
  intros H. pose proof (resolve_account_frame nm post ma w) as (H1 & H2 & H3).
  pose proof (resolve_account_silent nm post ma w) as H4.
  rewrite H in *. by simpl in *.
Qed.

(** The rule of lines 138-154 at an account that is not yet known, seen
    from a posting. *)
Lemma check_account_known_learns post po loc a acct w :
  account_at a (master (hp w)) = Some acct → ACCOUNT_KNOWN acct = false →
  fixed_accounts (jrnl w) = false →
  post_objs (objs (hp w)) !! post = Some po →
  _state (post_item po) ≠ UNCLEARED →
  check_account_known (Some post) loc a w
    = Result (Ret tt)
        (set_hp (set_master (alter_account add_flags_ACCOUNT_KNOWN a)) w) [].
Proof.
  intros Ha Hk Hf Hp Hs. unfold check_account_known.
  erewrite run_bind_ret by (by apply get_account_run). rewrite Hk.
  cbn [negb]. erewrite run_bind_ret by reflexivity. rewrite Hf. cbn [negb].
  erewrite run_bind_ret.
  2:{ erewrite run_bind_ret by (by apply get_post_run). reflexivity. }
  simpl. rewrite bool_decide_eq_false_2 by done. simpl.
  by erewrite add_flags_account_run.
Qed.

Lemma check_account_known_throws post loc a acct w :
  account_at a (master (hp w)) = Some acct → ACCOUNT_KNOWN acct = false →
  checking_style (jrnl w) = CHECK_ERROR →
  (fixed_accounts (jrnl w) = true ∨
   ∃ po, post_objs (objs (hp w)) !! post = Some po ∧
         _state (post_item po) = UNCLEARED) →
  check_account_known (Some post) loc a w
    = Result (Throw (parse_error ("Unknown account '" +:+ fullname a +:+ "'")))
        w [].
Proof.
  intros Ha Hk Hs Hc. unfold check_account_known.
  erewrite run_bind_ret by (by apply get_account_run). rewrite Hk.
  cbn [negb]. erewrite run_bind_ret by reflexivity.
  erewrite run_bind_ret with (a := false) (s' := w) (l := []).
  - rewrite Hs. reflexivity.
  - destruct Hc as [->|(po & Hp & Hu)]; [done|].
    destruct (fixed_accounts (jrnl w)); [done|]. simpl.
    erewrite run_bind_ret by (by apply get_post_run). simpl.
    by rewrite Hu.
Qed.

Lemma register_account_run nm post loc ma w a w1 o w2 l :
  resolve_account mask_match nm post ma w = Result (Ret a) w1 [] →
  check_account_known post loc a w1 = Result o w2 l →
  register_account mask_match nm post loc ma w
    = Result (match o with Ret _ => Ret a | Throw e => Throw e | Fault => Fault end)
        w2 l.
Proof.
  intros Hr Hc. unfold register_account.
  erewrite run_bind_ret by exact Hr. rewrite run_bind, Hc. simpl.
  destruct o; simpl; by rewrite ?app_nil_r.
Qed.

End AccountFacts.

(** C2: under [CHECK_ERROR] with the accounts not fixed, an account that is
    not yet known and is met on an [UNCLEARED] posting makes
    [register_account] throw a parse error that names it; met on a posting
    in any other state, the account is marked known and the call returns
    it without error or warning. *)
Theorem register_account_error_style mask_match nm post po loc ma w a w1 l acct :
  checking_style (jrnl w) = CHECK_ERROR →
  fixed_accounts (jrnl w) = false →
  post_objs (objs (hp w)) !! post = Some po →
  resolve_account mask_match nm (Some post) ma w = Result (Ret a) w1 l →
  account_at a (master (hp w1)) = Some acct →
  ACCOUNT_KNOWN acct = false →
  (_state (post_item po) = UNCLEARED →
   register_account mask_match nm (Some post) loc ma w
     = Result
         (Throw (parse_error ("Unknown account '" +:+ fullname a +:+ "'")))
         w1 []) ∧
  (_state (post_item po) ≠ UNCLEARED →
   register_account mask_match nm (Some post) loc ma w
     = Result (Ret a)
         (set_hp (set_master (alter_account add_flags_ACCOUNT_KNOWN a)) w1) [] ∧
   ACCOUNT_KNOWN <$>
     account_at a
       (master (hp (st (register_account mask_match nm (Some post) loc ma w))))
     = Some true).
Proof.
  intros Hs Hf Hp Hr Ha Hk.
  destruct (resolve_account_returns _ _ _ _ _ _ _ _ Hr) as (Hj & Ho & _ & ->).
  rewrite <- Hj in Hs, Hf. rewrite <- Ho in Hp. split; intros Hst.
  - assert (check_account_known (Some post) loc a w1
      = Result
          (Throw (parse_error ("Unknown account '" +:+ fullname a +:+ "'")))
          w1 []) as Hc
      by (apply (check_account_known_throws _ _ _ acct); eauto).
    by rewrite (register_account_run _ _ _ _ _ _ _ _ _ _ _ Hr Hc).
  - pose proof (check_account_known_learns _ po loc _ acct _ Ha Hk Hf Hp Hst)
      as Hc.
    rewrite (register_account_run _ _ _ _ _ _ _ _ _ _ _ Hr Hc).
    split; [done|]. simpl.
    by rewrite (account_at_alter _ _ _ acct).
Qed.

Lemma get_commodity_run c w k :
  pool (hp w) !! c = Some k → get_commodity c w = Result (Ret k) w [].
Proof. unfold get_commodity. by intros ->. Qed.

(** C3: under [CHECK_ERROR], once a kind is fixed, an entity of that kind
    that is not yet known and is met on a transaction or posting makes
    the call throw a parse error, whatever the state of that record; the
    state is left as it was, so the entity is not marked known.  This holds
    for accounts, for commodities and for metadata tags. *)
Theorem fixed_kind_throws mask_match calc (w : world) :
  checking_style (jrnl w) = CHECK_ERROR →
  (fixed_accounts (jrnl w) = true →
   ∀ nm post loc ma a w1 l acct,
     resolve_account mask_match nm (Some post) ma w = Result (Ret a) w1 l →
     account_at a (master (hp w1)) = Some acct →
     ACCOUNT_KNOWN acct = false →
     register_account mask_match nm (Some post) loc ma w
       = Result
           (Throw (parse_error ("Unknown account '" +:+ fullname a +:+ "'")))
           w1 []) ∧
  (fixed_commodities (jrnl w) = true →
   ∀ comm c context loc,
     pool (hp w) !! comm = Some c → COMMODITY_KNOWN c = false →
     which context ≠ 0 →
     register_commodity comm context loc w
       = Result
           (Throw (parse_error ("Unknown commodity '" +:+ symbol c +:+ "'")))
           w []) ∧
  (fixed_metadata (jrnl w) = true →
   ∀ key value context loc,
     key ∉ known_tags (jrnl w) →
     which context ≠ 0 →
     register_metadata calc key value context loc w
       = Result
           (Throw (parse_error ("Unknown metadata tag '" +:+ key +:+ "'")))
           w []).
Proof.
  intros Hs. split; [|split].
  - intros Hf nm post loc ma a w1 l acct Hr Ha Hk.
    destruct (resolve_account_returns _ _ _ _ _ _ _ _ Hr) as (Hj & _ & _ & ->).
    rewrite <- Hj in Hs, Hf.
    assert (check_account_known (Some post) loc a w1
      = Result
          (Throw (parse_error ("Unknown account '" +:+ fullname a +:+ "'")))
          w1 []) as Hc
      by (apply (check_account_known_throws _ _ _ acct); eauto).
    by rewrite (register_account_run _ _ _ _ _ _ _ _ _ _ _ Hr Hc).
  - intros Hf comm c context loc Hc Hk Hctx. unfold register_commodity.
    erewrite run_bind_ret by (by apply get_commodity_run). rewrite Hk.
    cbn [negb]. erewrite run_bind_ret by reflexivity.
    rewrite bool_decide_eq_false_2 by done. rewrite Hf. cbn [negb].
    erewrite run_bind_ret by reflexivity. by rewrite Hs.
  - intros Hf key value context loc Hk Hctx.
    unfold register_metadata, check_tag_known.
    rewrite run_bind. erewrite run_bind_ret by reflexivity.
    rewrite bool_decide_eq_true_2 by done.
    rewrite bool_decide_eq_false_2 by done. rewrite Hf. cbn [negb].
    erewrite run_bind_ret by reflexivity. by rewrite Hs.
Qed.

(** A declaration never fails at an account that exists. *)
Lemma check_account_known_declares loc a acct w :
  account_at a (master (hp w)) = Some acct →
  ∃ w', check_account_known None loc a w = Result (Ret tt) w' [].
Proof.
  intros Ha. unfold check_account_known.
  erewrite run_bind_ret by (by apply get_account_run).
  destruct (ACCOUNT_KNOWN acct); cbn [negb]; [by eexists|].
  erewrite run_bind_ret by reflexivity.
  destruct (force_checking (jrnl w)).
  - erewrite run_bind_ret by reflexivity.
    erewrite add_flags_account_run by exact Ha. by eexists.
  - erewrite run_bind_ret by reflexivity.
    erewrite add_flags_account_run by exact Ha. by eexists.
Qed.

(** C9: a call of [register_account] without a posting is safe only when
    the name does not lead to an account called "Unknown" while payee
    mappings for unknown accounts exist.  If it does, the call dereferences
    the null posting; otherwise it returns the account. *)
Theorem register_account_null_post mask_match nm loc ma w a w1 l acct :
  lookup_account nm ma w = Result (Ret a) w1 l →
  account_at a (master (hp w1)) = Some acct →
  (name acct = "Unknown" →
   payees_for_unknown_accounts (jrnl w1) ≠ [] →
   res (register_account mask_match nm None loc ma w) = Fault) ∧
  (name acct ≠ "Unknown" ∨ payees_for_unknown_accounts (jrnl w1) = [] →
   res (register_account mask_match nm None loc ma w) = Ret a).
Proof.
  intros Hl Ha. split.
  - intros Hn Hp. unfold register_account, resolve_account.
    rewrite run_bind. erewrite run_bind_ret by exact Hl.
    unfold route_unknown_account.
    erewrite run_bind_ret by (by apply get_account_run).
    rewrite Hn, bool_decide_eq_true_2 by done.
    erewrite run_bind_ret by reflexivity.
    destruct (payees_for_unknown_accounts (jrnl w1)); [done|]. reflexivity.
  - intros Hc.
    assert (resolve_account mask_match nm None ma w = Result (Ret a) w1 l)
      as Hr.
    { unfold resolve_account. erewrite run_bind_ret by exact Hl.
      unfold route_unknown_account.
      erewrite run_bind_ret by (by apply get_account_run).
      destruct Hc as [Hn|Hp].
      - rewrite bool_decide_eq_false_2 by done. simpl. by rewrite app_nil_r.
      - destruct (bool_decide _); [|simpl; by rewrite app_nil_r].
        erewrite run_bind_ret by reflexivity. rewrite Hp. simpl.
        by rewrite app_nil_r. }
    destruct (resolve_account_returns _ _ _ _ _ _ _ _ Hr) as (_ & _ & _ & ->).
    destruct (check_account_known_declares loc a acct w1 Ha) as [w2 Hk].
    by rewrite (register_account_run _ _ _ _ _ _ _ _ _ _ _ Hr Hk).
Qed.

(** ** Metadata checks *)

Section CheckFacts.
Context (calc : expr_t → xact_ptr + post_ptr → value_t → world → bool).

Lemma context_scope_run sc w :
  context_scope (item_context sc) w = Result (Ret sc) w [].
Proof. by destruct sc. Qed.

(** One check, in the scope of an item. *)
Lemma check_one_run key value sc loc i w :
  check_one calc key value (item_context sc) loc i w =
    if calc i.1 sc value w then Result (Ret tt) w []
    else if bool_decide (i.2 = EXPR_ASSERTION)
    then Result (Throw (parse_error (assertion_failed key value i.1))) w []
    else Result (Ret tt) w [check_failed loc key value i.1].
Proof.
  unfold check_one. erewrite run_bind_ret by apply context_scope_run.
  erewrite run_bind_ret by reflexivity.
  destruct (calc i.1 sc value w); cbn [negb]; [done|].
  by destruct (bool_decide (i.2 = EXPR_ASSERTION)).
Qed.

(** A run of checks none of which is a failing assertion goes through and
    warns for each failing one, in order. *)
Lemma foreach_checks_pass key value sc loc l w :
  (∀ i, i ∈ l → calc i.1 sc value w = true ∨ i.2 ≠ EXPR_ASSERTION) →
  foreach l (check_one calc key value (item_context sc) loc) w
    = Result (Ret tt) w (check_warnings calc loc key value sc w l).
Proof.
  induction l as [|i l IH]; intros Hl; [done|].
  specialize (IH (λ j Hj, Hl j (list_elem_of_further _ _ _ Hj))).
  cbn [foreach]. rewrite run_bind, check_one_run.
  unfold check_warnings. cbn [List.filter].
  destruct (calc i.1 sc value w) eqn:E; cbn [negb res st out].
  - by rewrite IH.
  - destruct (Hl i) as [?|Hk]; [set_solver|congruence|].
    rewrite bool_decide_eq_false_2 by done. cbn [res st out].
    by rewrite IH.
Qed.

End CheckFacts.

(** C4: [register_metadata] with a value that is not null, in the scope of
    a transaction or posting, once the tag itself has passed.  The checks
    registered for the key run in insertion order.  At the first check
    whose predicate is false and which is an assertion, the call throws a
    parse error whose message gives the key, the value and the predicate.
    At a check whose predicate is false and which is not an assertion, a
    warning with the same three is printed and the remaining checks run
    as they would have. *)
Theorem register_metadata_checks calc key value sc loc w w1 lg pre e k rest :
  is_null value = false →
  check_tag_known key (item_context sc) loc w = Result (Ret tt) w1 lg →
  equal_range key (tag_check_exprs (jrnl w1)) = pre ++ (e, k) :: rest →
  (∀ i, i ∈ pre → calc i.1 sc value w1 = true ∨ i.2 ≠ EXPR_ASSERTION) →
  calc e sc value w1 = false →
  (k = EXPR_ASSERTION →
   register_metadata calc key value (item_context sc) loc w
     = Result (Throw (parse_error (assertion_failed key value e))) w1
         (lg ++ check_warnings calc loc key value sc w1 pre)) ∧
  (k ≠ EXPR_ASSERTION →
   let r := foreach rest (check_one calc key value (item_context sc) loc) w1 in
   register_metadata calc key value (item_context sc) loc w
     = Result (res r) (st r)
         (lg ++ check_warnings calc loc key value sc w1 pre
             ++ check_failed loc key value e :: out r)).
Proof.
  intros Hv Ht Hr Hpre He.
  assert (∀ o s l,
    (foreach pre (check_one calc key value (item_context sc) loc)
       ≫= λ _, foreach ((e, k) :: rest)
                 (check_one calc key value (item_context sc) loc)) w1
      = Result o s l →
    register_metadata calc key value (item_context sc) loc w
      = Result o s (lg ++ l)) as Hrun.
  { intros o s l Hf. unfold register_metadata.
    erewrite run_bind_ret by exact Ht. rewrite Hv. cbn [negb].
    unfold check_metadata. erewrite run_bind_ret by reflexivity.
    by rewrite Hr, run_foreach_app, Hf. }
  split.
  - intros ->. apply Hrun.
    erewrite run_bind_ret by (by apply foreach_checks_pass).
    simpl. rewrite run_bind, check_one_run. simpl. rewrite He. simpl.
    by rewrite app_nil_r.
  - intros Hk r. apply Hrun.
    erewrite run_bind_ret by (by apply foreach_checks_pass).
    simpl. rewrite run_bind, check_one_run. simpl. rewrite He.
    rewrite bool_decide_eq_false_2 by done. simpl. done.
Qed.

(** ** Cache sweeps *)

(** Induction on an account with the property known of its children. *)
Lemma account_t_tree_ind (P : account_t → Prop) :
  (∀ n k x cs, Forall P cs → P (mk_account n k x cs)) → ∀ a, P a.
Proof.
  intros H. fix IH 1. intros [n k x cs]. apply H.
  induction cs as [|c cs IHcs]; constructor; [apply IH|exact IHcs].
Qed.

Lemma account_clear_xdata_idem a :
  account_clear_xdata (account_clear_xdata a) = account_clear_xdata a.
Proof.
  induction a as [n k x cs IH] using account_t_tree_ind. simpl. f_equal.
  rewrite List.map_map. induction IH as [|c cs Hc _ IHcs]; simpl; [done|].
  by rewrite Hc, IHcs.
Qed.

Lemma account_clear_xdata_none a :
  account_has_xdata (account_clear_xdata a) = false ∧
  children_with_xdata (account_clear_xdata a) = false.
Proof.
  induction a as [n k x cs IH] using account_t_tree_ind. split.
  - done.
  - simpl. induction IH as [|c cs [Hc1 Hc2] _ IHcs]; simpl; [done|].
    rewrite Hc2, IHcs. unfold account_has_xdata in Hc1. by rewrite Hc1.
Qed.

Lemma sweep_lookup l m x :
  sweep l m !! x = (if bool_decide (x ∈ l) then clear_item else id) <$> m !! x.
Proof.
  revert m. induction l as [|y l IH]; intros m; simpl.
  - by destruct (m !! x).
  - rewrite IH. destruct (decide (x = y)) as [->|Hne].
    + rewrite lookup_alter_eq.
      rewrite (bool_decide_eq_true_2 (y ∈ y :: l)) by apply list_elem_of_here.
      destruct (m !! y) as [xo|]; simpl; [|done].
      case_bool_decide; simpl; [|done]. f_equal.
      unfold clear_item. by destruct (ITEM_TEMP (xact_item xo)) eqn:E; simpl;
        rewrite ?E.
    + rewrite lookup_alter_ne by done.
      destruct (decide (x ∈ l)) as [Hin|Hin].
      * rewrite (bool_decide_eq_true_2 (x ∈ l)) by done.
        by rewrite (bool_decide_eq_true_2 (x ∈ y :: l))
          by (by apply list_elem_of_further).
      * rewrite (bool_decide_eq_false_2 (x ∈ l)) by done.
        rewrite (bool_decide_eq_false_2 (x ∈ y :: l)); [done|].
        by intros [?|?]%elem_of_cons.
Qed.

Lemma clear_item_idem xo : clear_item (clear_item xo) = clear_item xo.
Proof.
  unfold clear_item. destruct (ITEM_TEMP (xact_item xo)) eqn:E; simpl;
    by rewrite ?E.
Qed.

Lemma sweep_idem l m : sweep l (sweep l m) = sweep l m.
Proof.
  apply map_eq. intros x. rewrite !sweep_lookup.
  destruct (m !! x) as [xo|]; simpl; [|done].
  case_bool_decide; simpl; [|done]. by rewrite clear_item_idem.
Qed.

Lemma valid_xact_sweep l w x : valid_xact (sweep_world l w) x ↔ valid_xact w x.
Proof.
  unfold valid_xact, sweep_world. simpl. rewrite sweep_lookup.
  by rewrite fmap_is_Some.
Qed.

Lemma sweep_world_cons x l w :
  sweep_world (x :: l) w = sweep_world l (sweep_world [x] w).
Proof. done. Qed.

Lemma sweep_world_nil w : sweep_world [] w = w.
Proof. by destruct w as [j [m p [xs ps]]]. Qed.

Lemma alter_clear_item_temp x xo (m : gmap xact_ptr xact_t) :
  m !! x = Some xo → ITEM_TEMP (xact_item xo) = true →
  alter clear_item x m = m.
Proof.
  intros Hx E. apply map_eq. intros y. destruct (decide (y = x)) as [->|Hne].
  - rewrite lookup_alter_eq, Hx. simpl. unfold clear_item. by rewrite E.
  - by rewrite lookup_alter_ne.
Qed.

Lemma alter_clear_item_plain x xo (m : gmap xact_ptr xact_t) :
  m !! x = Some xo → ITEM_TEMP (xact_item xo) = false →
  alter clear_item x m = alter (set_xact_xdata None) x m.
Proof.
  intros Hx E. apply map_eq. intros y. destruct (decide (y = x)) as [->|Hne].
  - rewrite !lookup_alter_eq, Hx. simpl. unfold clear_item. by rewrite E.
  - by rewrite !lookup_alter_ne.
Qed.

(** One visit of lines 436-437. *)
Lemma clear_one_run x w :
  valid_xact w x →
  (get_xact x ≫= λ xo,
     if negb (ITEM_TEMP (xact_item xo)) then put_xact_xdata x None
     else mret tt) w
    = Result (Ret tt) (sweep_world [x] w) [].
Proof.
  intros [xo Hx]. erewrite run_bind_ret by (by apply get_xact_run).
  unfold sweep_world, sweep, set_hp, set_objs, set_xact_objs. cbn [foldl].
  destruct (ITEM_TEMP (xact_item xo)) eqn:E; cbn [negb].
  - rewrite (alter_clear_item_temp _ _ _ Hx E).
    by destruct w as [j [m p [xs ps]]].
  - rewrite (alter_clear_item_plain _ _ _ Hx E).
    unfold put_xact_xdata. by erewrite run_bind_ret by (by apply get_xact_run).
Qed.

Lemma clear_one_fault x w :
  ¬ valid_xact w x →
  (get_xact x ≫= λ xo,
     if negb (ITEM_TEMP (xact_item xo)) then put_xact_xdata x None
     else mret tt) w
    = Result Fault w [].
Proof.
  intros Hx. rewrite run_bind. unfold get_xact, valid_xact in *.
  destruct (xact_objs (objs (hp w)) !! x); [|done]. destruct Hx. eauto.
Qed.

Lemma clear_each_run l w :
  Forall (valid_xact w) l →
  clear_each l w = Result (Ret tt) (sweep_world l w) [].
Proof.
  revert w. induction l as [|x l IH]; intros w Hl.
  - by rewrite sweep_world_nil.
  - inversion_clear Hl as [|?? Hx Hl']. unfold clear_each. cbn [foreach].
    erewrite run_bind_ret by (by apply clear_one_run).
    fold (clear_each l). rewrite IH, <- sweep_world_cons; [done|].
    eapply Forall_impl; [exact Hl'|]. intros y Hy. by apply valid_xact_sweep.
Qed.

Lemma clear_each_fault l w :
  ¬ Forall (valid_xact w) l → res (clear_each l w) = Fault.
Proof.
  revert w. induction l as [|x l IH]; intros w Hl.
  - destruct Hl. constructor.
  - unfold clear_each. cbn [foreach]. rewrite run_bind.
    destruct (decide (valid_xact w x)) as [Hx|Hx].
    + rewrite clear_one_run by done. simpl. apply IH. intros Hl'.
      apply Hl. constructor; [done|].
      eapply Forall_impl; [exact Hl'|]. intros y Hy.
      by apply valid_xact_sweep in Hy.
    + by rewrite clear_one_fault.
Qed.

Lemma clear_xdata_as_sweep w :
  clear_xdata w
    = (clear_each (all_xacts (jrnl w));;
       modify (set_hp (set_master account_clear_xdata))) w.
Proof.
  unfold clear_xdata, all_xacts, clear_each.
  erewrite run_bind_ret by reflexivity.
  rewrite foreach_app_then, !(run_bind (foreach (xacts (jrnl w)) _)).
  destruct (foreach (xacts (jrnl w)) _ w) as [[[]|e|] w1 l1]; simpl; [|done..].
  by rewrite foreach_app_then.
Qed.

Lemma clear_xdata_run w :
  Forall (valid_xact w) (all_xacts (jrnl w)) →
  clear_xdata w = Result (Ret tt) (cleared w) [].
Proof.
  intros Hl. rewrite clear_xdata_as_sweep.
  by erewrite run_bind_ret by (by apply clear_each_run).
Qed.

Lemma clear_xdata_fault w :
  ¬ Forall (valid_xact w) (all_xacts (jrnl w)) →
  res (clear_xdata w) = Fault.
Proof.
  intros Hl. rewrite clear_xdata_as_sweep, run_bind.
  pose proof (clear_each_fault _ _ Hl) as H.
  by destruct (clear_each (all_xacts (jrnl w)) w) as [[] ? ?]; simplify_eq/=.
Qed.

Lemma clear_xdata_returns w w' l :
  clear_xdata w = Result (Ret tt) w' l →
  Forall (valid_xact w) (all_xacts (jrnl w)) ∧ w' = cleared w ∧ l = [].
Proof.
  intros H. destruct (decide (Forall (valid_xact w) (all_xacts (jrnl w))))
    as [Hl|Hl].
  - rewrite clear_xdata_run in H by done. by simplify_eq.
  - apply clear_xdata_fault in Hl. by rewrite H in Hl.
Qed.

Lemma cleared_idem w : cleared (cleared w) = cleared w.
Proof.
  unfold cleared, sweep_world, set_hp, set_master, set_objs, set_xact_objs.
  simpl. by rewrite sweep_idem, account_clear_xdata_idem.
Qed.

Lemma valid_xact_cleared w x : valid_xact (cleared w) x ↔ valid_xact w x.
Proof. unfold cleared. apply (valid_xact_sweep _ w x). Qed.

Lemma any_has_xdata_run l w :
  Forall (valid_xact w) l →
  any_has_xdata l w = Result (Ret (existsb (carries_xdata w) l)) w [].
Proof.
  induction 1 as [|x l [xo Hx] _ IH]; [done|]. cbn [any_has_xdata existsb].
  erewrite run_bind_ret by (by apply get_xact_run).
  unfold carries_xdata at 1. rewrite Hx.
  destruct (bool_decide (is_Some (xact_xdata xo))); [done|].
  by rewrite IH.
Qed.

Lemma has_xdata_run w :
  Forall (valid_xact w) (all_xacts (jrnl w)) →
  has_xdata w
    = Result
        (Ret (existsb (carries_xdata w) (all_xacts (jrnl w))
              || account_has_xdata (master (hp w))
              || children_with_xdata (master (hp w))))
        w [].
Proof.
  unfold all_xacts. intros (H1 & (H2 & H3)%Forall_app)%Forall_app.
  unfold has_xdata. erewrite run_bind_ret by reflexivity.
  rewrite !existsb_app.
  erewrite run_bind_ret by (by apply any_has_xdata_run).
  destruct (existsb (carries_xdata w) (xacts (jrnl w))); [done|].
  erewrite run_bind_ret by (by apply any_has_xdata_run).
  destruct (existsb (carries_xdata w) (auto_xacts (jrnl w))); [done|].
  erewrite run_bind_ret by (by apply any_has_xdata_run).
  destruct (existsb (carries_xdata w) (period_xacts (jrnl w))); [done|].
  erewrite run_bind_ret by reflexivity. simpl.
  by destruct (account_has_xdata _ || children_with_xdata _).
Qed.

Lemma carries_xdata_cleared w x :
  x ∈ all_xacts (jrnl w) → carries_xdata (cleared w) x = temp_xdata w x.
Proof.
  intros Hx. unfold carries_xdata, temp_xdata, cleared, sweep_world. simpl.
  rewrite sweep_lookup, bool_decide_eq_true_2 by done.
  destruct (xact_objs (objs (hp w)) !! x) as [xo|]; simpl; [|done].
  unfold clear_item. by destruct (ITEM_TEMP (xact_item xo)).
Qed.

Lemma existsb_ext_in {A} (f g : A → bool) (l : list A) :
  (∀ x, x ∈ l → f x = g x) → existsb f l = existsb g l.
Proof.
  induction l as [|x l IH]; intros H; simpl; [done|].
  rewrite (H x), IH; [done| |]; set_solver.
Qed.

(** C7, as the code has it: [clear_xdata] is idempotent, and [has_xdata]
    after it returns false unless a transaction, automated transaction or
    periodic transaction that is flagged [ITEM_TEMP] carries a cache, in
    which case it returns true. *)
Theorem clear_xdata_idempotent :
  (∀ w, (clear_xdata ≫= λ _, clear_xdata) w = clear_xdata w) ∧
  (∀ w w' l,
     clear_xdata w = Result (Ret tt) w' l →
     has_xdata w'
       = Result (Ret (existsb (temp_xdata w) (all_xacts (jrnl w)))) w' []).
Proof.
  split.
  - intros w. rewrite run_bind.
    destruct (decide (Forall (valid_xact w) (all_xacts (jrnl w)))) as [Hl|Hl].
    + rewrite clear_xdata_run by done. cbn [res st out].
      rewrite clear_xdata_run.
      * cbn [res st out]. by rewrite cleared_idem.
      * eapply Forall_impl; [exact Hl|]. intros x Hx.
        by apply valid_xact_cleared.
    + rewrite (clear_xdata_fault _ Hl). rewrite <- (clear_xdata_fault _ Hl).
      apply result_eta.
  - intros w w' l (Hl & -> & ->)%clear_xdata_returns.
    rewrite has_xdata_run.
    2:{ eapply Forall_impl; [exact Hl|]. intros x Hx.
        by apply valid_xact_cleared. }
    destruct (account_clear_xdata_none (master (hp w))) as [H1 H2].
    simpl. rewrite H1, H2, !orb_false_r. do 2 f_equal.
    apply existsb_ext_in. intros x Hx. by apply carries_xdata_cleared.
Qed.

(** C7 fails as stated: in [temp_world] the only transaction is temporary
    and carries a cache; [clear_xdata] skips it and [has_xdata] then
    returns true. *)
Lemma clear_xdata_skips_temporaries :
  res (clear_xdata temp_world) = Ret tt ∧
  res (has_xdata (st (clear_xdata temp_world))) = Ret true.
Proof. split; vm_compute; reflexivity. Qed.

(** ** [read] *)

Lemma clear_xdata_silent : silent clear_xdata.
Proof.
  unfold clear_xdata, clear_each, put_xact_xdata. quiet;
    apply silent_get_xact.
Qed.

Lemma clear_xdata_outcome w :
  res (clear_xdata w) = Ret tt ∨ res (clear_xdata w) = Fault.
Proof.
  destruct (decide (Forall (valid_xact w) (all_xacts (jrnl w)))) as [Hl|Hl].
  - left. by rewrite clear_xdata_run.
  - right. by apply clear_xdata_fault.
Qed.

(** C6, as the code has it: [read] from a stream runs [clear_xdata]
    exactly once, on the state in which the block under [try] ended,
    whether that block returned a count or threw (a missing default scope
    is one of the exceptions thrown inside the block); the count or the
    exception is delivered after it.  When the call ends without a fault,
    the sweep has done its work: every transaction, automated transaction
    and periodic transaction of the journal that is not flagged
    [ITEM_TEMP] is as the block left it but without its cache, the
    account tree carries no cache, and everything else is as the block
    left it.  [read] from a path whose file does not exist throws before
    any sweep: the journal is as it was. *)
Theorem read_clears_xdata_once default_scope parse in_ pathname master_alt
    scope w :
  let b := read_body default_scope parse in_ pathname master_alt scope w in
  let c := clear_xdata (st b) in
  let r := read default_scope parse in_ pathname master_alt scope w in
  res b ≠ Fault →
  r = Result (match res c with Ret _ => res b | _ => Fault end) (st c) (out b)
  ∧ (res r ≠ Fault →
     res r = res b ∧
     jrnl (st r) = jrnl (st b) ∧ pool (hp (st r)) = pool (hp (st b)) ∧
     post_objs (objs (hp (st r))) = post_objs (objs (hp (st b))) ∧
     (∀ x, x ∈ all_xacts (jrnl (st b)) →
        ∃ xo, xact_objs (objs (hp (st b))) !! x = Some xo ∧
              xact_objs (objs (hp (st r))) !! x
                = Some (if ITEM_TEMP (xact_item xo) then xo
                        else set_xact_xdata None xo)) ∧
     (∀ x, x ∉ all_xacts (jrnl (st b)) →
        xact_objs (objs (hp (st r))) !! x
          = xact_objs (objs (hp (st b))) !! x) ∧
     master (hp (st r)) = account_clear_xdata (master (hp (st b))) ∧
     account_has_xdata (master (hp (st r))) = false ∧
     children_with_xdata (master (hp (st r))) = false)
  ∧ (scope = None → default_scope = None →
     b = Result
           (Throw (runtime_error
              ("No default scope in which to read journal file '"
                 +:+ quoted pathname +:+ "'")))
           w [])
  ∧ (∀ parse_ext resolve_path exists_ ifstream p ma sc e,
       exists_ (resolve_path p) = false →
       read_path default_scope parse_ext resolve_path exists_ ifstream
           p ma sc e
         = Result
             (Throw (runtime_error
                ("Cannot read journal file " +:+ quoted (resolve_path p))))
             e []).
Proof.
  intros b c r Hb.
  assert (r = Result (match res c with Ret _ => res b | _ => Fault end)
                (st c) (out b)) as Hr.
  { subst r. unfold read. rewrite run_bind. unfold try_catch_rethrow.
    fold b. pose proof (clear_xdata_silent (st b)) as Ho.
    pose proof (clear_xdata_outcome (st b)) as Hc. fold c in Ho, Hc.
    destruct (res b) as [n|e|] eqn:E; [| |done].
    + cbn [res st out]. rewrite E, run_bind. fold c.
      destruct Hc as [Hc|Hc]; rewrite Hc; cbn [res st out];
        by rewrite Ho, ?app_nil_r.
    + rewrite run_bind. fold c.
      destruct Hc as [Hc|Hc]; rewrite Hc; cbn [res st out];
        by rewrite Ho, ?app_nil_r. }
  split; [exact Hr|]. split; [|split].
  - rewrite Hr. cbn [res st]. intros Hnf.
    destruct (res c) as [[]| |] eqn:Hc; [|done..].
    assert (clear_xdata (st b) = Result (Ret tt) (st c) (out c)) as Hrun
      by (rewrite <- Hc; symmetry; apply result_eta).
    apply clear_xdata_returns in Hrun as (Hl & -> & _).
    destruct (account_clear_xdata_none (master (hp (st b)))) as [H1 H2].
    split; [done|]. split; [done|]. split; [done|]. split; [done|].
    split; [|split; [|split; [done|split; [exact H1|exact H2]]]].
    + intros x Hx. rewrite Forall_forall in Hl.
      destruct (Hl x Hx) as [xo Hxo]. exists xo. split; [done|].
      unfold cleared, sweep_world. simpl.
      rewrite sweep_lookup, bool_decide_eq_true_2 by done. by rewrite Hxo.
    + intros x Hx. unfold cleared, sweep_world. simpl.
      rewrite sweep_lookup, bool_decide_eq_false_2 by done.
      by destruct (xact_objs (objs (hp (st b))) !! x).
  - intros -> ->. reflexivity.
  - intros parse_ext resolve_path exists_ ifstream p ma sc e He.
    unfold read_path. by rewrite He.
Qed.

(** C6 fails as stated: in [cached_ext] the listed transaction 1 is not
    temporary and carries a cache; [read] from the path of a file that
    does not exist throws, and the cache is still there. *)
Lemma read_path_skips_sweep :
  let run := read_path (Some 1%positive) (parse_ext_returns 2) id
               (only_file "j.dat") content_of "k.dat" None None cached_ext in
  res run = Throw (runtime_error ("Cannot read journal file " +:+ quoted "k.dat"))
  ∧ st run = cached_ext
  ∧ temp_xdata (base (st run)) 1%positive = false
  ∧ carries_xdata (base (st run)) 1%positive = true
  ∧ res (has_xdata (base (st run))) = Ret true.
Proof. repeat split; vm_compute; reflexivity. Qed.

(** ** The theorems at concrete journals *)

(** Two transactions with the UUID 7f3a, added to a fresh journal. *)
Lemma add_xact_same_uuid_witness :
  let add := add_xact 1%positive (finalize_says true) no_auto_extend
               (calc_says true) in
  let w1 := st (add 1%positive (sample_world initialize)) in
  let r := add 2%positive w1 in
  (1%positive ∈ xacts (jrnl w1) ∧
   checksum_map (jrnl w1) !! "7f3a" = Some 1%positive) ∧
  res r ≠ Ret true ∧
  xacts (jrnl (st r)) = xacts (jrnl w1) ∧ (2%positive ∉ xacts (jrnl (st r))) ∧
  checksum_map (jrnl (st r)) !! "7f3a" = Some 1%positive ∧
  (∀ b, res r = Ret b →
     b = false ∧
     journal (set_journal None (sample_xact CLEARED [uuid_tag "7f3a"] []))
       = None).
Proof.
  intros add w1.
  apply (add_xact_same_uuid 1%positive (finalize_says true) no_auto_extend
           (calc_says true) 1%positive 2%positive (sample_world initialize)
           w1 [] "7f3a"
           (set_journal (Some 1%positive)
              (sample_xact CLEARED [uuid_tag "7f3a"] [1%positive; 2%positive]))
           (set_journal None (sample_xact CLEARED [uuid_tag "7f3a"] []))
           (string_value "7f3a") (string_value "7f3a"));
    try (vm_compute; reflexivity).
  vm_compute. by intros ?%list_elem_of_singleton.
Defined.

(** An account first met on the uncleared posting 1, then on the cleared
    posting 2, under [CHECK_ERROR]. *)
Lemma register_account_error_style_witness :
  let w1 := st (resolve_account match_any "Expenses:Food" (Some 1%positive) []
                  strict_world) in
  register_account match_any "Expenses:Food" (Some 1%positive) "j.dat:3: " []
      strict_world
    = Result (Throw (parse_error "Unknown account 'Expenses:Food'")) w1 [] ∧
  register_account match_any "Expenses:Food" (Some 2%positive) "j.dat:3: " []
      strict_world
    = Result (Ret ["Expenses"; "Food"])
        (set_hp (set_master
           (alter_account add_flags_ACCOUNT_KNOWN ["Expenses"; "Food"])) w1)
        [] ∧
  ACCOUNT_KNOWN <$>
    account_at ["Expenses"; "Food"]
      (master (hp (st (register_account match_any "Expenses:Food"
                         (Some 2%positive) "j.dat:3: " [] strict_world))))
    = Some true.
Proof.
  intros w1. split.
  - refine (proj1 (register_account_error_style match_any "Expenses:Food"
              1%positive (sample_post UNCLEARED) "j.dat:3: " [] strict_world
              ["Expenses"; "Food"] w1 [] (new_account "Food") _ _ _ _ _ _)
              eq_refl); vm_compute; reflexivity.
  - refine (proj2 (register_account_error_style match_any "Expenses:Food"
              2%positive (sample_post CLEARED) "j.dat:3: " [] strict_world
              ["Expenses"; "Food"] w1 [] (new_account "Food") _ _ _ _ _ _)
              _); [vm_compute; reflexivity..|discriminate].
Defined.

(** A journal whose three kinds are fixed, under [CHECK_ERROR]: the cleared
    posting 2 and the cleared transaction 1 no longer teach anything. *)
Lemma fixed_kind_throws_witness :
  register_account match_any "Expenses:Food" (Some 2%positive) "j.dat:3: " []
      fixed_world
    = Result (Throw (parse_error "Unknown account 'Expenses:Food'"))
        (st (resolve_account match_any "Expenses:Food" (Some 2%positive) []
               fixed_world)) [] ∧
  register_commodity "EUR" (ctx_post (Some 2%positive)) "j.dat:3: " fixed_world
    = Result (Throw (parse_error "Unknown commodity 'EUR'")) fixed_world [] ∧
  register_metadata (calc_says true) "Payee" (string_value "x")
      (ctx_xact (Some 1%positive)) "j.dat:3: " fixed_world
    = Result (Throw (parse_error "Unknown metadata tag 'Payee'"))
        fixed_world [].
Proof.
  destruct (fixed_kind_throws match_any (calc_says true) fixed_world eq_refl)
    as (Ha & Hc & Hm).
  split; [|split].
  - apply (Ha eq_refl "Expenses:Food" 2%positive "j.dat:3: " [] ["Expenses"; "Food"]
             (st (resolve_account match_any "Expenses:Food"
                    (Some 2%positive) [] fixed_world))
             [] (new_account "Food"));
      vm_compute; reflexivity.
  - apply (Hc eq_refl "EUR" {| symbol := "EUR"; COMMODITY_KNOWN := false |});
      [vm_compute; reflexivity|reflexivity|discriminate].
  - apply (Hm eq_refl); [set_solver|discriminate].
Defined.

(** Two checks for the tag Ref, a warning and then an assertion, both
    false for the value: the warning is printed, then the assertion
    throws. *)
Lemma register_metadata_checks_witness :
  let w1 := st (check_tag_known "Ref" (ctx_xact (Some 1%positive)) "f:3: "
                  checked_world) in
  register_metadata (calc_says false) "Ref" (string_value "C1")
      (ctx_xact (Some 1%positive)) "f:3: " checked_world
    = Result
        (Throw (parse_error
           "Metadata assertion failed for (Ref: C1): value =~ /^B/"))
        w1
        ["f:3: Metadata check failed for (Ref: C1): value =~ /^A/"] ∧
  register_metadata (calc_says false) "Ref" (string_value "C1")
      (ctx_xact (Some 1%positive)) "f:3: " checked_world
    = Result
        (res (foreach [("value =~ /^B/", EXPR_ASSERTION)]
                (check_one (calc_says false) "Ref" (string_value "C1")
                   (ctx_xact (Some 1%positive)) "f:3: ") w1))
        (st (foreach [("value =~ /^B/", EXPR_ASSERTION)]
               (check_one (calc_says false) "Ref" (string_value "C1")
                  (ctx_xact (Some 1%positive)) "f:3: ") w1))
        ("f:3: Metadata check failed for (Ref: C1): value =~ /^A/"
           :: out (foreach [("value =~ /^B/", EXPR_ASSERTION)]
                     (check_one (calc_says false) "Ref" (string_value "C1")
                        (ctx_xact (Some 1%positive)) "f:3: ") w1)).
Proof.
  intros w1. split.
  - refine (proj1 (register_metadata_checks (calc_says false) "Ref"
              (string_value "C1") (inl 1%positive) "f:3: " checked_world w1 []
              [("value =~ /^A/", EXPR_WARNING)] "value =~ /^B/" EXPR_ASSERTION
              [] _ _ _ _ _) eq_refl); try (vm_compute; reflexivity).
    intros i ->%list_elem_of_singleton. by right.
  - refine (proj2 (register_metadata_checks (calc_says false) "Ref"
              (string_value "C1") (inl 1%positive) "f:3: " checked_world w1 []
              [] "value =~ /^A/" EXPR_WARNING
              [("value =~ /^B/", EXPR_ASSERTION)] _ _ _ _ _) _);
      try (vm_compute; reflexivity).
    + by intros i ?%elem_of_nil.
    + discriminate.
Defined.

(** A transaction whose [finalize] fails. *)
Lemma add_xact_finalize_fails_witness :
  let w := sample_world initialize in
  let r := add_xact 1%positive (finalize_says false) no_auto_extend
             (calc_says true) 1%positive w in
  res r = Ret false ∧ out r = [] ∧ jrnl (st r) = jrnl w ∧
  master (hp (st r)) = master (hp w) ∧ pool (hp (st r)) = pool (hp w) ∧
  objs (hp (st r))
    = assign_journal 1%positive None
        (assign_journal 1%positive (Some 1%positive) (objs (hp w))) ∧
  journal <$> xact_objs (objs (hp (st r))) !! 1%positive = Some None.
Proof.
  intros w. cbv zeta.
  apply (add_xact_finalize_fails 1%positive (finalize_says false)
           no_auto_extend (calc_says true) 1%positive w
           (assign_journal 1%positive (Some 1%positive) (objs (hp w))) []).
  - vm_compute. eauto.
  - reflexivity.
  - vm_compute. eauto.
Defined.

(** A parser that leaves a cache on the listed transaction 1, then
    returns a count or throws: the cache is gone when [read] ends. *)
Lemma read_clears_xdata_once_witness :
  let body parse :=
    read_body (Some 1%positive) parse "2012/02/27 Grocer" "j.dat" None None
      paired_world in
  let run parse :=
    read (Some 1%positive) parse "2012/02/27 Grocer" "j.dat" None None
      paired_world in
  (carries_xdata (st (body (parse_caches 2))) 1%positive = true ∧
   res (run (parse_caches 2)) = Ret 2 ∧
   xact_xdata <$> xact_objs (objs (hp (st (run (parse_caches 2))))) !! 1%positive
     = Some None) ∧
  (carries_xdata (st (body (parse_caches_throws "unexpected"))) 1%positive
     = true ∧
   res (run (parse_caches_throws "unexpected"))
     = Throw (parse_error "unexpected") ∧
   xact_xdata <$>
     xact_objs (objs (hp (st (run (parse_caches_throws "unexpected")))))
       !! 1%positive
     = Some None).
Proof.
  intros body run.
  assert (1%positive ∈ all_xacts (jrnl paired_world)) as Hin
    by (vm_compute; apply list_elem_of_here).
  split.
  - destruct (read_clears_xdata_once (Some 1%positive) (parse_caches 2)
                "2012/02/27 Grocer" "j.dat" None None paired_world)
      as (_ & H & _); [discriminate|].
    destruct H as (Hres & _ & _ & _ & Hx & _); [discriminate|].
    destruct (Hx 1%positive Hin) as (xo & Hb & Hr).
    split; [vm_compute; reflexivity|]. split; [exact Hres|].
    vm_compute in Hb. injection Hb as <-.
    exact (f_equal (fmap xact_xdata) Hr).
  - destruct (read_clears_xdata_once (Some 1%positive)
                (parse_caches_throws "unexpected")
                "2012/02/27 Grocer" "j.dat" None None paired_world)
      as (_ & H & _); [discriminate|].
    destruct H as (Hres & _ & _ & _ & Hx & _); [discriminate|].
    destruct (Hx 1%positive Hin) as (xo & Hb & Hr).
    split; [vm_compute; reflexivity|]. split; [exact Hres|].
    vm_compute in Hb. injection Hb as <-.
    exact (f_equal (fmap xact_xdata) Hr).
Defined.

(** The sweep of [temp_world] completes; [has_xdata] then returns true. *)
Lemma clear_xdata_idempotent_witness :
  (clear_xdata ≫= λ _, clear_xdata) temp_world = clear_xdata temp_world ∧
  has_xdata (st (clear_xdata temp_world))
    = Result (Ret true) (st (clear_xdata temp_world)) [].
Proof.
  destruct clear_xdata_idempotent as [H1 H2]. split; [apply H1|].
  rewrite (H2 temp_world (st (clear_xdata temp_world)) []);
    vm_compute; reflexivity.
Defined.

(** Transaction 2 is not in the list [1; 3; 1]; transaction 1 is there
    twice and loses its first entry. *)
Lemma remove_xact_spec_witness :
  remove_xact 2%positive listed_world = Result (Ret false) listed_world [] ∧
  res (remove_xact 1%positive listed_world) = Ret true ∧
  xacts (jrnl (st (remove_xact 1%positive listed_world)))
    = [3%positive; 1%positive].
Proof.
  split.
  - apply (remove_xact_spec 2%positive listed_world). vm_compute.
    intros H. repeat (apply elem_of_cons in H as [[=]|H]).
    by apply elem_of_nil in H.
  - destruct (remove_xact_spec 1%positive listed_world) as [_ H].
    destruct H as (l1 & l2 & Hl & Hn & Hr & _).
    + vm_compute. apply list_elem_of_here.
    + vm_compute. eauto.
    + rewrite Hr. destruct l1 as [|y l1].
      * injection Hl as <-. split; reflexivity.
      * injection Hl as <- _. destruct Hn. apply list_elem_of_here.
Defined.

(** A declaration of the account Unknown while a payee mapping exists
    dereferences the null posting; a declaration of another account
    returns it. *)
Lemma register_account_null_post_witness :
  res (register_account match_any "Unknown" None "j.dat:3: " [] routed_world) = Fault ∧
  res (register_account match_any "Expenses:Food" None "j.dat:3: " [] routed_world)
    = Ret ["Expenses"; "Food"].
Proof.
  split.
  - refine (proj1 (register_account_null_post match_any "Unknown" "j.dat:3: " []
              routed_world ["Unknown"]
              (st (lookup_account "Unknown" [] routed_world)) []
              (new_account "Unknown") _ _) eq_refl _);
      [vm_compute; reflexivity..|discriminate].
  - refine (proj2 (register_account_null_post match_any "Expenses:Food" "j.dat:3: " []
              routed_world ["Expenses"; "Food"]
              (st (lookup_account "Expenses:Food" [] routed_world)) []
              (new_account "Food") _ _) _);
      [vm_compute; reflexivity..|left; discriminate].
Defined.

(** Transaction 3 after transaction 1, with the same UUID, in a journal
    with one automated transaction: transaction 3 is turned away, yet it
    has been given posting 2 by the extension and the journal keeps the
    tag Payee that its validation learned. *)
Lemma add_xact_rejection_keeps_effects_witness :
  let add := add_xact 1%positive (finalize_says true) posting_auto_extend
               (calc_says true) in
  let w := st (add 1%positive tagged_world) in
  let wf := st (add 3%positive w) in
  res (add 3%positive w) = Ret false ∧
  ("Payee" ∉ known_tags (jrnl w)) ∧ "Payee" ∈ known_tags (jrnl wf) ∧
  posts <$> xact_objs (objs (hp w)) !! 3%positive = Some [] ∧
  posts <$> xact_objs (objs (hp wf)) !! 3%positive = Some [2%positive] ∧
  journal <$> xact_objs (objs (hp wf)) !! 3%positive = Some None ∧
  xacts (jrnl wf) = xacts (jrnl w) ∧
  checksum_map (jrnl wf) = checksum_map (jrnl w).
Proof.
  intros add w wf.
  pose (w1 := set_hp (set_objs (assign_journal 3%positive (Some 1%positive))) w).
  assert (call_finalize (finalize_says true) 3%positive w1
            = Result (Ret true) w1 []) as Hfin by (vm_compute; reflexivity).
  assert (add 3%positive w = Result (Ret false) wf []) as Hadd
    by (vm_compute; reflexivity).
  destruct (add_xact_rejection_keeps_effects 1%positive (finalize_says true)
              posting_auto_extend (calc_says true) 3%positive w w1 [] wf []
              Hfin Hadd)
    as (w2 & l2 & w4 & l4 & xo & ref & y & Hext & _ & _ & Hxo & _ & _ & _ & _
        & _ & _ & _ & _ & _ & Hx & _ & Hlearn & Hxs & Hcm).
  assert (w2 = st (foreach (auto_xacts (jrnl w))
                     (λ auto_xact,
                        call_auto_extend posting_auto_extend auto_xact
                          3%positive) w1)) as Hw2 by (by rewrite Hext).
  split; [by rewrite Hadd|].
  split; [vm_compute; set_solver|].
  split.
  { apply (Hlearn
             (set_journal (Some 1%positive)
                (sample_xact CLEARED
                   [uuid_tag "7f3a";
                    ("Payee", (Some (string_value "Grocer"), false))]
                   [2%positive]))
             [uuid_tag "7f3a"; ("Payee", (Some (string_value "Grocer"), false))]
             ("Payee", (Some (string_value "Grocer"), false)));
      [rewrite Hw2; vm_compute; reflexivity|reflexivity|discriminate
      |reflexivity|].
    apply list_elem_of_further, list_elem_of_here. }
  split; [vm_compute; reflexivity|].
  split; [vm_compute; reflexivity|].
  split; [exact (f_equal (fmap journal) Hx)|].
  split; [exact Hxs|exact Hcm].
Defined.

(** * Further properties of the journal *)

(** ** Computations that do not throw *)

Section NoThrow.
Context {S : Type}.

Lemma no_throw_ret {A} (a : A) : no_throw (mret a : M S A).
Proof. by intros s e. Qed.
Lemma no_throw_gets {A} (f : S → A) : no_throw (gets f).
Proof. by intros s e. Qed.
Lemma no_throw_modify (f : S → S) : no_throw (modify f).
Proof. by intros s e. Qed.
Lemma no_throw_fault {A} : no_throw (fault : M S A).
Proof. by intros s e. Qed.
Lemma no_throw_warning msg : no_throw (warning_ msg : M S unit).
Proof. by intros s e. Qed.
Lemma no_throw_deref {A} (o : option A) : no_throw (deref o : M S A).
Proof. by destruct o. Qed.
Lemma no_throw_if {A} (b : bool) (m1 m2 : M S A) :
  no_throw m1 → no_throw m2 → no_throw (if b then m1 else m2).
Proof. by destruct b. Qed.
Lemma no_throw_bind {A B} (m : M S A) (k : A → M S B) :
  no_throw m → (∀ a, no_throw (k a)) → no_throw (m ≫= k).
Proof.
  intros Hm Hk s e. rewrite run_bind. specialize (Hm s).
  destruct (res (m s)) as [a|e'|]; cbn [res]; [apply Hk| |done].
  by destruct (Hm e').
Qed.
Lemma no_throw_foreach {A} (l : list A) (body : A → M S unit) :
  (∀ x, no_throw (body x)) → no_throw (foreach l body).
Proof.
  intros Hb. induction l as [|x l IH]; cbn [foreach].
  - apply (no_throw_ret tt).
  - apply no_throw_bind; auto.
Qed.
End NoThrow.

Ltac calm_step :=
  lazymatch goal with
  | |- no_throw (mret _) => apply no_throw_ret
  | |- no_throw (gets _) => apply no_throw_gets
  | |- no_throw (modify _) => apply no_throw_modify
  | |- no_throw fault => apply no_throw_fault
  | |- no_throw (warning_ _) => apply no_throw_warning
  | |- no_throw (deref _) => apply no_throw_deref
  | |- no_throw (if _ then _ else _) => apply no_throw_if
  | |- no_throw (foreach _ _) => apply no_throw_foreach
  | |- no_throw (_ ≫= _) => apply no_throw_bind
  end.

Ltac calm :=
  repeat first
    [ match goal with |- ∀ _, _ => intro end | assumption | calm_step ].

Lemma no_throw_get_account a : no_throw (get_account a).
Proof. intros w. unfold get_account. apply no_throw_deref. Qed.
Lemma no_throw_get_xact x : no_throw (get_xact x).
Proof. intros w. unfold get_xact. apply no_throw_deref. Qed.
Lemma no_throw_get_post p : no_throw (get_post p).
Proof. intros w. unfold get_post. apply no_throw_deref. Qed.
Lemma no_throw_get_commodity c : no_throw (get_commodity c).
Proof. intros w. unfold get_commodity. apply no_throw_deref. Qed.
Lemma no_throw_get_post_opt p : no_throw (get_post_opt p).
Proof. destruct p; [apply no_throw_get_post|apply no_throw_fault]. Qed.
Lemma no_throw_get_xact_opt x : no_throw (get_xact_opt x).
Proof. destruct x; [apply no_throw_get_xact|apply no_throw_fault]. Qed.

Lemma silent_get_post p : silent (get_post p).
Proof. intros w. unfold get_post. apply silent_deref. Qed.
Lemma silent_get_commodity c : silent (get_commodity c).
Proof. intros w. unfold get_commodity. apply silent_deref. Qed.

Lemma add_flags_account_calm a :
  no_throw (add_flags_account a) ∧ silent (add_flags_account a).
Proof.
  unfold add_flags_account.
  split; [calm; apply no_throw_get_account|quiet; apply silent_get_account].
Qed.

Lemma add_flags_commodity_calm c :
  no_throw (add_flags_commodity c) ∧ silent (add_flags_commodity c).
Proof.
  unfold add_flags_commodity.
  split; [calm; apply no_throw_get_commodity|quiet; apply silent_get_commodity].
Qed.

(** A context that is looked at only when it is not an [int]. *)
Lemma context_not_uncleared_calm c :
  no_throw (context_not_uncleared c) ∧ silent (context_not_uncleared c).
Proof.
  destruct c; unfold context_not_uncleared, context_state; split;
    calm; quiet;
    auto using no_throw_get_xact_opt, no_throw_get_post_opt,
      silent_get_xact_opt, silent_get_post_opt.
Qed.

(** ** [register_account]: resolving the name *)

Section ResolveFacts.
Context (mask_match : mask_t → string → bool).

Lemma find_account_no_throw base nm : no_throw (find_account base nm).
Proof. unfold find_account. calm. apply no_throw_get_account. Qed.

Lemma payee_for_unknown_account_no_throw l post result :
  no_throw (payee_for_unknown_account mask_match l post result).
Proof.
  induction l as [|v l IH]; simpl; calm;
    [apply no_throw_get_post_opt|apply no_throw_get_xact_opt].
Qed.

Lemma resolve_account_no_throw nm post ma :
  no_throw (resolve_account mask_match nm post ma).
Proof.
  unfold resolve_account, lookup_account, route_unknown_account. calm.
  - destruct (if bool_decide _ then _ else _); calm.
    apply find_account_no_throw.
  - apply no_throw_get_account.
  - apply payee_for_unknown_account_no_throw.
Qed.

(** X1: a name that has an alias resolves to the aliased account; the
    account tree is not searched, nothing is created, and the master
    account given to the call is not even looked at. *)
Theorem lookup_account_alias nm ma w a :
  account_aliases (jrnl w) !! nm = Some a →
  lookup_account nm ma w = Result (Ret a) w [].
Proof.
  intros Ha. unfold lookup_account. erewrite run_bind_ret by reflexivity.
  rewrite bool_decide_eq_true_2.
  - by rewrite Ha.
  - destruct (decide (size (account_aliases (jrnl w)) = 0)) as [Hz|Hz]; [|lia].
    apply map_size_empty_iff in Hz. rewrite Hz in Ha.
    by rewrite lookup_empty in Ha.
Qed.

(** The payee of the transaction a posting belongs to. *)
Lemma payee_for_unknown_account_first post po xo pre m a rest result w :
  post_objs (objs (hp w)) !! post = Some po →
  xact po = Some xo.1 →
  xact_objs (objs (hp w)) !! xo.1 = Some xo.2 →
  (∀ v, v ∈ pre → mask_match v.1 (payee xo.2) = false) →
  mask_match m (payee xo.2) = true →
  payee_for_unknown_account mask_match (pre ++ (m, a) :: rest) (Some post)
      result w
    = Result (Ret a) w [].
Proof.
  intros Hp Hx Hxo Hpre Hm. induction pre as [|v pre IH]; cbn [app].
  - cbn [payee_for_unknown_account get_post_opt].
    erewrite run_bind_ret by (by apply get_post_run). rewrite Hx.
    cbn [get_xact_opt].
    erewrite run_bind_ret by (by apply get_xact_run). cbn [fst snd].
    by rewrite Hm.
  - cbn [payee_for_unknown_account get_post_opt].
    erewrite run_bind_ret by (by apply get_post_run). rewrite Hx.
    cbn [get_xact_opt].
    erewrite run_bind_ret by (by apply get_xact_run).
    rewrite (Hpre v) by apply list_elem_of_here.
    rewrite IH by (intros v' Hv'; apply Hpre; by apply list_elem_of_further).
    done.
Qed.

Lemma payee_for_unknown_account_none post po xo l result w :
  post_objs (objs (hp w)) !! post = Some po →
  xact po = Some xo.1 →
  xact_objs (objs (hp w)) !! xo.1 = Some xo.2 →
  (∀ v, v ∈ l → mask_match v.1 (payee xo.2) = false) →
  payee_for_unknown_account mask_match l (Some post) result w
    = Result (Ret result) w [].
Proof.
  intros Hp Hx Hxo Hl. induction l as [|v l IH]; [done|].
  cbn [payee_for_unknown_account get_post_opt].
  erewrite run_bind_ret by (by apply get_post_run). rewrite Hx.
  cbn [get_xact_opt].
  erewrite run_bind_ret by (by apply get_xact_run).
  rewrite (Hl v) by apply list_elem_of_here.
  rewrite IH by (intros v' Hv'; apply Hl; by apply list_elem_of_further).
  done.
Qed.

(** X2: the payee mappings for unknown accounts.  An account whose name
    is not "Unknown" is never replaced, whatever the mappings and the
    posting.  For an account named "Unknown", the first mapping whose
    mask matches the payee of the posting's transaction gives the
    account, also when later mappings match too; when no mask matches,
    the account stays. *)
Theorem route_unknown_account_first_match post po x xo result acct w :
  account_at result (master (hp w)) = Some acct →
  (name acct ≠ "Unknown" →
   ∀ p, route_unknown_account mask_match p result w = Result (Ret result) w [])
  ∧
  (name acct = "Unknown" →
   post_objs (objs (hp w)) !! post = Some po →
   xact po = Some x →
   xact_objs (objs (hp w)) !! x = Some xo →
   (∀ pre m a rest,
      payees_for_unknown_accounts (jrnl w) = pre ++ (m, a) :: rest →
      (∀ v, v ∈ pre → mask_match v.1 (payee xo) = false) →
      mask_match m (payee xo) = true →
      route_unknown_account mask_match (Some post) result w
        = Result (Ret a) w []) ∧
   ((∀ v, v ∈ payees_for_unknown_accounts (jrnl w) →
          mask_match v.1 (payee xo) = false) →
    route_unknown_account mask_match (Some post) result w
      = Result (Ret result) w [])).
Proof.
  intros Ha. split.
  - intros Hn p. unfold route_unknown_account.
    erewrite run_bind_ret by (by apply get_account_run).
    by rewrite bool_decide_eq_false_2.
  - intros Hn Hp Hx Hxo. split.
    + intros pre m a rest Hl Hpre Hm. unfold route_unknown_account.
      erewrite run_bind_ret by (by apply get_account_run).
      rewrite bool_decide_eq_true_2 by done.
      erewrite run_bind_ret by reflexivity. rewrite Hl.
      by rewrite (payee_for_unknown_account_first post po (x, xo)).
    + intros Hl. unfold route_unknown_account.
      erewrite run_bind_ret by (by apply get_account_run).
      rewrite bool_decide_eq_true_2 by done.
      erewrite run_bind_ret by reflexivity.
      by rewrite (payee_for_unknown_account_none post po (x, xo)).
Qed.

End ResolveFacts.

(** ** The known-entity rule *)

Section RuleFacts.
Context (mask_match : mask_t → string → bool).
Context (calc : expr_t → xact_ptr + post_ptr → value_t → world → bool).

(** Lines 138-154 under [CHECK_PERMISSIVE]. *)
Lemma check_account_known_permissive post loc a w :
  checking_style (jrnl w) = CHECK_PERMISSIVE →
  (∀ e, res (check_account_known post loc a w) ≠ Throw e) ∧
  out (check_account_known post loc a w) = [].
Proof.
  intros Hs. unfold check_account_known.
  destruct (account_at a (master (hp w))) as [acct|] eqn:Ha.
  2:{ rewrite run_bind. unfold get_account. by rewrite Ha. }
  erewrite run_bind_ret by (by apply get_account_run).
  destruct (ACCOUNT_KNOWN acct); cbn [negb]; [done|].
  erewrite run_bind_ret by reflexivity. rewrite Hs.
  rewrite (bool_decide_eq_false_2 (CHECK_PERMISSIVE = CHECK_WARNING)) by done.
  rewrite (bool_decide_eq_false_2 (CHECK_PERMISSIVE = CHECK_ERROR)) by done.
  destruct (add_flags_account_calm a) as [Hn Hq].
  pose proof (no_throw_get_post) as Hgp. pose proof (silent_get_post) as Hsp.
  cbn [res out app]. destruct post as [post|].
  - match goal with |- context [res (?X w)] =>
      assert (no_throw X ∧ silent X) as [HX1 HX2]
    end.
    { split; [calm|quiet]; try apply Hgp; try apply Hsp. }
    split; [apply HX1|apply HX2].
  - match goal with |- context [res (?X w)] =>
      assert (no_throw X ∧ silent X) as [HX1 HX2]
    end.
    { split; [calm|quiet]. }
    split; [apply HX1|apply HX2].
Qed.

(** X3: under [CHECK_PERMISSIVE] a call of [register_account] never throws
    and never warns, whatever the name, the posting (null or not), its
    state and the fixed flags.  Resolving the name, with the account tree
    as modelled here, throws nothing either. *)
Theorem register_account_permissive nm post loc ma w :
  checking_style (jrnl w) = CHECK_PERMISSIVE →
  (∀ e, res (register_account mask_match nm post loc ma w) ≠ Throw e) ∧
  out (register_account mask_match nm post loc ma w) = [].
Proof.
  intros Hs. unfold register_account. rewrite run_bind.
  pose proof (resolve_account_no_throw mask_match nm post ma w) as Hn.
  pose proof (resolve_account_silent mask_match nm post ma w) as Hq.
  pose proof (resolve_account_frame mask_match nm post ma w) as (Hj & _).
  destruct (resolve_account mask_match nm post ma w) as [[a|e|] w1 l1];
    cbn [res st out] in *; [|by destruct (Hn e)|done].
  rewrite <- Hj in Hs.
  destruct (check_account_known_permissive post loc a w1 Hs) as [Hc1 Hc2].
  rewrite run_bind.
  destruct (check_account_known post loc a w1) as [[[]|e|] w2 l2];
    cbn [res st out] in *; subst; [done| |done].
  by destruct (Hc1 e).
Qed.

(** Lines 138-154 at an unknown account that is not to be learned, when
    the style is not [CHECK_ERROR]. *)
Lemma check_account_known_lenient post loc a acct w :
  account_at a (master (hp w)) = Some acct → ACCOUNT_KNOWN acct = false →
  checking_style (jrnl w) ≠ CHECK_ERROR →
  (fixed_accounts (jrnl w) = true ∨
   ∃ po, post_objs (objs (hp w)) !! post = Some po ∧
         _state (post_item po) = UNCLEARED) →
  check_account_known (Some post) loc a w
    = Result (Ret tt) w
        (if bool_decide (checking_style (jrnl w) = CHECK_WARNING)
         then [loc +:+ "Unknown account '" +:+ fullname a +:+ "'"] else []).
Proof.
  intros Ha Hk Hs Hc. unfold check_account_known.
  erewrite run_bind_ret by (by apply get_account_run). rewrite Hk.
  cbn [negb]. erewrite run_bind_ret by reflexivity.
  erewrite run_bind_ret with (a := false) (s' := w) (l := []).
  - destruct (bool_decide (checking_style (jrnl w) = CHECK_WARNING)); [done|].
    by rewrite bool_decide_eq_false_2.
  - destruct Hc as [->|(po & Hp & Hu)]; [done|].
    destruct (fixed_accounts (jrnl w)); [done|]. simpl.
    erewrite run_bind_ret by (by apply get_post_run). simpl.
    by rewrite Hu.
Qed.

(** X4: when the style is [CHECK_WARNING] or [CHECK_PERMISSIVE], an
    account that is not yet known and is met on an [UNCLEARED] posting, or
    on any posting once the accounts are fixed, is returned and stays
    unknown: the rule changes nothing.  Under [CHECK_WARNING] one warning
    is printed, made of the location and the full name of the account;
    under [CHECK_PERMISSIVE] nothing is printed. *)
Theorem register_account_lenient nm post loc ma w a w1 l acct :
  checking_style (jrnl w) ≠ CHECK_ERROR →
  resolve_account mask_match nm (Some post) ma w = Result (Ret a) w1 l →
  account_at a (master (hp w1)) = Some acct →
  ACCOUNT_KNOWN acct = false →
  (fixed_accounts (jrnl w) = true ∨
   ∃ po, post_objs (objs (hp w)) !! post = Some po ∧
         _state (post_item po) = UNCLEARED) →
  register_account mask_match nm (Some post) loc ma w
    = Result (Ret a) w1
        (if bool_decide (checking_style (jrnl w) = CHECK_WARNING)
         then [loc +:+ "Unknown account '" +:+ fullname a +:+ "'"] else []).
Proof.
  intros Hs Hr Ha Hk Hc.
  destruct (resolve_account_returns _ _ _ _ _ _ _ _ Hr) as (Hj & Ho & _ & ->).
  rewrite <- Hj in *. rewrite <- Ho in Hc.
  pose proof (check_account_known_lenient post loc a acct w1 Ha Hk Hs Hc)
    as Hck.
  by rewrite (register_account_run _ _ _ _ _ _ _ _ _ _ _ Hr Hck).
Qed.

(** X5: an entity that is already known always passes.  A known account
    is returned with the state as resolution left it; a known commodity
    and a known tag without value leave the state as it was.  No style, no
    fixed flag and no context (not even a null one) is looked at, nothing
    is thrown or printed. *)
Theorem known_entity_passes w :
  (∀ nm post loc ma a w1 l acct,
     resolve_account mask_match nm post ma w = Result (Ret a) w1 l →
     account_at a (master (hp w1)) = Some acct →
     ACCOUNT_KNOWN acct = true →
     register_account mask_match nm post loc ma w = Result (Ret a) w1 []) ∧
  (∀ comm c context loc,
     pool (hp w) !! comm = Some c → COMMODITY_KNOWN c = true →
     register_commodity comm context loc w = Result (Ret tt) w []) ∧
  (∀ key value context loc,
     key ∈ known_tags (jrnl w) → is_null value = true →
     register_metadata calc key value context loc w = Result (Ret tt) w []).
Proof.
  split; [|split].
  - intros nm post loc ma a w1 l acct Hr Ha Hk.
    destruct (resolve_account_returns _ _ _ _ _ _ _ _ Hr) as (_ & _ & _ & ->).
    assert (check_account_known post loc a w1 = Result (Ret tt) w1 []) as Hc.
    { unfold check_account_known.
      erewrite run_bind_ret by (by apply get_account_run). by rewrite Hk. }
    by rewrite (register_account_run _ _ _ _ _ _ _ _ _ _ _ Hr Hc).
  - intros comm c context loc Hc Hk. unfold register_commodity.
    erewrite run_bind_ret by (by apply get_commodity_run). by rewrite Hk.
  - intros key value context loc Hk Hv. unfold register_metadata.
    erewrite run_bind_ret with (a := tt) (s' := w) (l := []).
    + by rewrite Hv.
    + unfold check_tag_known. erewrite run_bind_ret by reflexivity.
      rewrite bool_decide_eq_false_2; [done|]. by intros H.
Qed.

End RuleFacts.

(** ** Commodities and tags met on records, and declarations *)

Section KindFacts.
Context (calc : expr_t → xact_ptr + post_ptr → value_t → world → bool).

Lemma context_state_which context s w w' l :
  context_state context w = Result (Ret s) w' l → which context ≠ 0.
Proof. by destruct context. Qed.

Lemma context_not_uncleared_run context s w :
  context_state context w = Result (Ret s) w [] →
  context_not_uncleared context w
    = Result (Ret (negb (bool_decide (s = UNCLEARED)))) w [].
Proof.
  intros H. destruct context as [n|x|p]; [done|..];
    unfold context_not_uncleared; by erewrite run_bind_ret by exact H.
Qed.

Lemma add_flags_commodity_run comm c w :
  pool (hp w) !! comm = Some c →
  add_flags_commodity comm w
    = Result (Ret tt)
        (set_hp (set_pool (alter
           (λ k, {| symbol := symbol k; COMMODITY_KNOWN := true |}) comm)) w)
        [].
Proof.
  intros H. unfold add_flags_commodity.
  by erewrite run_bind_ret by (by apply get_commodity_run).
Qed.

(** X6: a commodity or a tag that is not yet known and is met on a
    transaction or posting whose state is not [UNCLEARED], while its kind
    is not fixed, is marked known: the call returns, prints nothing and
    changes nothing else, under every checking style. *)
Theorem unfixed_kind_learns context s w :
  context_state context w = Result (Ret s) w [] → s ≠ UNCLEARED →
  (fixed_commodities (jrnl w) = false →
   ∀ comm c loc,
     pool (hp w) !! comm = Some c → COMMODITY_KNOWN c = false →
     register_commodity comm context loc w
       = Result (Ret tt)
           (set_hp (set_pool (alter
              (λ k, {| symbol := symbol k; COMMODITY_KNOWN := true |}) comm)) w)
           []) ∧
  (fixed_metadata (jrnl w) = false →
   ∀ key loc,
     key ∉ known_tags (jrnl w) →
     register_metadata calc key NULL_VALUE context loc w
       = Result (Ret tt)
           (set_jrnl (λ j, set_known_tags ({[key]} ∪ known_tags j) j) w) []).
Proof.
  intros Hc Hs. pose proof (context_state_which _ _ _ _ _ Hc) as Hw.
  pose proof (context_not_uncleared_run _ _ _ Hc) as Hn.
  rewrite bool_decide_eq_false_2 in Hn by done. cbn [negb] in Hn.
  split.
  - intros Hf comm c loc Hp Hk. unfold register_commodity.
    erewrite run_bind_ret by (by apply get_commodity_run). rewrite Hk.
    cbn [negb]. erewrite run_bind_ret by reflexivity.
    rewrite bool_decide_eq_false_2 by done. rewrite Hf. cbn [negb].
    erewrite run_bind_ret by exact Hn. cbv beta iota.
    by rewrite (add_flags_commodity_run _ _ _ Hp).
  - intros Hf key loc Hk. unfold register_metadata, check_tag_known.
    rewrite run_bind. erewrite run_bind_ret by reflexivity.
    rewrite bool_decide_eq_true_2 by done.
    rewrite bool_decide_eq_false_2 by done. rewrite Hf. cbn [negb].
    by erewrite run_bind_ret by exact Hn.
Qed.

(** X7: under [CHECK_PERMISSIVE] the rule never refuses a commodity or a
    tag either: [register_commodity], and [register_metadata] for a tag
    without value, never throw and never warn, whatever the context. *)
Theorem permissive_commodities_and_tags w :
  checking_style (jrnl w) = CHECK_PERMISSIVE →
  (∀ comm context loc,
     (∀ e, res (register_commodity comm context loc w) ≠ Throw e) ∧
     out (register_commodity comm context loc w) = []) ∧
  (∀ key context loc,
     (∀ e, res (register_metadata calc key NULL_VALUE context loc w)
             ≠ Throw e) ∧
     out (register_metadata calc key NULL_VALUE context loc w) = []).
Proof.
  intros Hs.
  pose proof (λ c, proj1 (add_flags_commodity_calm c)) as Hn1.
  pose proof (λ c, proj2 (add_flags_commodity_calm c)) as Hq1.
  pose proof (λ c, proj1 (context_not_uncleared_calm c)) as Hn2.
  pose proof (λ c, proj2 (context_not_uncleared_calm c)) as Hq2.
  split.
  - intros comm context loc. unfold register_commodity.
    destruct (pool (hp w) !! comm) as [c|] eqn:Hc.
    2:{ rewrite run_bind. unfold get_commodity. by rewrite Hc. }
    erewrite run_bind_ret by (by apply get_commodity_run).
    destruct (COMMODITY_KNOWN c); cbn [negb]; [done|].
    erewrite run_bind_ret by reflexivity. rewrite Hs.
    rewrite (bool_decide_eq_false_2 (CHECK_PERMISSIVE = CHECK_WARNING)) by done.
    rewrite (bool_decide_eq_false_2 (CHECK_PERMISSIVE = CHECK_ERROR)) by done.
    cbn [res out app].
    match goal with |- context [res (?X w)] =>
      assert (no_throw X ∧ silent X) as [HX1 HX2]
    end.
    { split; [calm|quiet]; try apply Hn1; try apply Hq1;
        try apply Hn2; try apply Hq2. }
    split; [apply HX1|apply HX2].
  - intros key context loc. unfold register_metadata. cbn [is_null negb].
    assert ((∀ e, res (check_tag_known key context loc w) ≠ Throw e) ∧
            out (check_tag_known key context loc w) = []) as [Ht1 Ht2].
    { unfold check_tag_known. erewrite run_bind_ret by reflexivity.
      rewrite Hs.
      rewrite (bool_decide_eq_false_2 (CHECK_PERMISSIVE = CHECK_WARNING))
        by done.
      rewrite (bool_decide_eq_false_2 (CHECK_PERMISSIVE = CHECK_ERROR))
        by done.
      cbn [res out app].
      match goal with |- context [res (?X w)] =>
        assert (no_throw X ∧ silent X) as [HX1 HX2]
      end.
      { split; [calm|quiet]; try apply Hn2; try apply Hq2. }
      split; [apply HX1|apply HX2]. }
    rewrite run_bind.
    destruct (check_tag_known key context loc w) as [[[]|e|] w1 l1];
      cbn [res st out] in *; subst; [done| |done].
    by destruct (Ht1 e).
Qed.

(** Lines 255-276 at an unknown tag once tags are fixed, under
    [CHECK_ERROR]. *)
Lemma check_tag_known_fixed key context loc w :
  checking_style (jrnl w) = CHECK_ERROR → fixed_metadata (jrnl w) = true →
  key ∉ known_tags (jrnl w) → which context ≠ 0 →
  check_tag_known key context loc w
    = Result (Throw (parse_error ("Unknown metadata tag '" +:+ key +:+ "'")))
        w [].
Proof.
  intros Hs Hf Hk Hw. unfold check_tag_known.
  erewrite run_bind_ret by reflexivity.
  rewrite bool_decide_eq_true_2 by done.
  rewrite bool_decide_eq_false_2 by done. rewrite Hf. cbn [negb].
  erewrite run_bind_ret by reflexivity. by rewrite Hs.
Qed.

(** X8: a declaration (a context that is no record) of a tag that is not
    yet known, while [force_checking] is set, returns having added the tag
    and set [fixed_metadata], and nothing else.  From then on, under
    [CHECK_ERROR], every other tag that is not known is refused on every
    transaction and posting, also on those that are not [UNCLEARED]. *)
Theorem declaration_fixes_tags key n loc w key' value context loc' :
  force_checking (jrnl w) = true →
  checking_style (jrnl w) = CHECK_ERROR →
  key ∉ known_tags (jrnl w) →
  key' ∉ known_tags (jrnl w) → key' ≠ key → which context ≠ 0 →
  let w' := set_jrnl (λ j, set_known_tags ({[key]} ∪ known_tags j) j)
              (set_jrnl (set_fixed_metadata true) w) in
  register_metadata calc key NULL_VALUE (ctx_int n) loc w
    = Result (Ret tt) w' [] ∧
  register_metadata calc key' value context loc' w'
    = Result (Throw (parse_error ("Unknown metadata tag '" +:+ key' +:+ "'")))
        w' [].
Proof.
  intros Hfc Hs Hk Hk' Hne Hw w'. split.
  - unfold register_metadata, check_tag_known.
    rewrite run_bind. erewrite run_bind_ret by reflexivity.
    rewrite bool_decide_eq_true_2 by done.
    rewrite (bool_decide_eq_true_2 (which (ctx_int n) = 0)) by done.
    by rewrite Hfc.
  - unfold register_metadata. rewrite run_bind.
    rewrite check_tag_known_fixed; [done|by destruct w, jrnl0..| |done].
    subst w'. simpl. by intros [?%elem_of_singleton|?]%elem_of_union.
Qed.

(** X9: [register_metadata] in a declaration with a value that is not
    null.  The tag is handled first, which in a declaration always
    returns, prints nothing and leaves the tag known.  Then, if a check is
    registered for the key, the call throws [bad_get] at the first check,
    before its predicate is evaluated; if none is, it returns. *)
Theorem register_metadata_declared_value key value n loc w :
  is_null value = false →
  let r := check_tag_known key (ctx_int n) loc w in
  res r = Ret tt ∧ out r = [] ∧ key ∈ known_tags (jrnl (st r)) ∧
  tag_check_exprs (jrnl (st r)) = tag_check_exprs (jrnl w) ∧
  register_metadata calc key value (ctx_int n) loc w
    = Result
        (if bool_decide (equal_range key (tag_check_exprs (jrnl w)) = [])
         then Ret tt else Throw bad_get)
        (st r) [].
Proof.
  intros Hv r.
  assert (res r = Ret tt ∧ out r = [] ∧ key ∈ known_tags (jrnl (st r)) ∧
          tag_check_exprs (jrnl (st r)) = tag_check_exprs (jrnl w))
    as (Hr & Ho & Hk & Ht).
  { subst r. unfold check_tag_known. erewrite run_bind_ret by reflexivity.
    destruct (decide (key ∈ known_tags (jrnl w))) as [Hin|Hin].
    - rewrite bool_decide_eq_false_2; [done|]. by intros H.
    - rewrite bool_decide_eq_true_2 by done.
      rewrite (bool_decide_eq_true_2 (which (ctx_int n) = 0)) by done.
      destruct (force_checking (jrnl w)); simpl;
        (split_and!; [done|done| |done]);
        apply elem_of_union_l; by apply elem_of_singleton. }
  repeat (split; [done|]).
  unfold register_metadata. rewrite run_bind. fold r. rewrite Hr, Hv, Ho.
  cbn [negb app]. unfold check_metadata.
  erewrite run_bind_ret by reflexivity. rewrite Ht.
  destruct (equal_range key (tag_check_exprs (jrnl w))) as [|i l]; [done|].
  rewrite bool_decide_eq_false_2 by done.
  cbn [foreach]. rewrite run_bind. unfold check_one. by rewrite run_bind.
Qed.

(** X10: among the members of the journal, the validation of the metadata
    of a record touches one, the set of known tags, and this set only
    grows: the lists, the registry, the aliases and mappings, the checks,
    the fixed flags and the checking style are as before.  This holds for
    every context and every outcome of the validation: return, exception
    or fault. *)
Theorem check_all_metadata_only_tags c w :
  let w' := st (check_all_metadata calc c w) in
  jrnl w' = set_known_tags (known_tags (jrnl w')) (jrnl w) ∧
  known_tags (jrnl w) ⊆ known_tags (jrnl w').
Proof.
  revert w. change (keeps tags_frame (check_all_metadata calc c)).
  unfold check_all_metadata. destruct c as [n|x|p].
  - intros w. rewrite run_bind. cbn. reflexivity.
  - frame.
    + unfold context_metadata. destruct x; frame;
        [apply keeps_get_xact, _|apply keeps_get_post_opt, _].
    + destruct a as [m|]; frame.
      destruct (x0.2.1); by apply register_metadata_tags.
  - frame.
    + unfold context_metadata. frame. apply keeps_get_post_opt, _.
    + destruct a as [m|]; frame.
      destruct (x.2.1); by apply register_metadata_tags.
Qed.

End KindFacts.

(** ** Accepted transactions *)

Lemma remove_xact_last x l w :
  xacts (jrnl w) = l ++ [x] → (x ∉ l) →
  is_Some (xact_objs (objs (hp w)) !! x) →
  remove_xact x w = Result (Ret true) (detach x (set_jrnl (set_xacts l) w)) [].
Proof.
  intros Hl Hn Hx. unfold remove_xact. erewrite run_bind_ret by reflexivity.
  rewrite Hl, (list_find_first x l [] Hn).
  erewrite run_bind_ret by reflexivity.
  erewrite run_bind_ret by (apply put_journal_run; simpl; eauto).
  simpl. unfold detach, set_jrnl. by rewrite Hl, delete_middle, app_nil_r.
Qed.

Section AcceptFacts.
Context (this : journal_ptr).
Context (finalize : xact_ptr → M xstore bool).
Context (auto_extend : xact_ptr → xact_ptr → M heap unit).
Context (calc : expr_t → xact_ptr + post_ptr → value_t → world → bool).

(** The last step of a call of [add_xact] that returns true. *)
Lemma add_xact_true x w wf l :
  add_xact this finalize auto_extend calc x w = Result (Ret true) wf l →
  ∃ w4 xo,
    xacts (jrnl w4) = xacts (jrnl w) ∧
    checksum_map (jrnl w4) = checksum_map (jrnl w) ∧
    xact_objs (objs (hp w4)) !! x = Some xo ∧
    match get_tag "UUID" (xact_item xo) with
    | None => wf = push_xact x w4
    | Some ref =>
        checksum_map (jrnl w4) !! to_string ref = None ∧
        wf = push_xact x (claim_checksum (to_string ref) x w4)
    end.
Proof.
  intros (_ & ok & w1 & l1 & Hfin & H)%add_xact_returns.
  pose proof (call_finalize_jrnl _ _ _ _ _ _ Hfin) as Hj. simpl in Hj.
  destruct ok; [|by destruct H].
  destruct H as (w4 & l4 & xo & H4 & Hxo & _ & H).
  apply (extend_and_check_registry this finalize) in H4 as [Hl Hc].
  rewrite Hj in Hl, Hc. exists w4, xo. split; [done|]. split; [done|]. split; [done|].
  destruct (get_tag "UUID" (xact_item xo)) as [ref|]; [|by destruct H].
  destruct (checksum_map (jrnl w4) !! to_string ref); by destruct H.
Qed.

(** X11: a call of [add_xact] that returns true has put the transaction at
    the end of the transaction list, once, and left the rest of the list
    as it was.  If the transaction carries a UUID, that UUID was free
    before the call and belongs to the transaction after it, the other
    entries of the registry being unchanged; if it carries none, the
    registry is unchanged. *)
Theorem add_xact_accepts x w wf l :
  add_xact this finalize auto_extend calc x w = Result (Ret true) wf l →
  xacts (jrnl wf) = xacts (jrnl w) ++ [x] ∧
  ∃ xo, xact_objs (objs (hp wf)) !! x = Some xo ∧
    match get_tag "UUID" (xact_item xo) with
    | Some ref =>
        checksum_map (jrnl w) !! to_string ref = None ∧
        checksum_map (jrnl wf) = <[to_string ref := x]> (checksum_map (jrnl w))
    | None => checksum_map (jrnl wf) = checksum_map (jrnl w)
    end.
Proof.
  intros (w4 & xo & Hl & Hc & Hxo & H)%add_xact_true.
  destruct (get_tag "UUID" (xact_item xo)) as [ref|] eqn:Htag.
  - destruct H as [Hfree ->]. simpl. rewrite Hl. split; [done|].
    exists xo. split; [done|]. rewrite Htag. by rewrite <- Hc.
  - subst wf. simpl. rewrite Hl. split; [done|].
    exists xo. split; [done|]. by rewrite Htag.
Qed.

(** X12: [remove_xact] does not release the UUID of the transaction it
    removes.  After a transaction with a UUID has been accepted and then
    removed, the transaction list is the one from before it was added, but
    the registry still holds its UUID; so adding the same transaction
    again, with the same UUID, never returns true and leaves the list
    without it. *)
Theorem remove_xact_keeps_uuid x w w1 l1 xo ref :
  add_xact this finalize auto_extend calc x w = Result (Ret true) w1 l1 →
  x ∉ xacts (jrnl w) →
  xact_objs (objs (hp w1)) !! x = Some xo →
  get_tag "UUID" (xact_item xo) = Some ref →
  let w2 := st (remove_xact x w1) in
  let r := add_xact this finalize auto_extend calc x w2 in
  res (remove_xact x w1) = Ret true ∧
  xacts (jrnl w2) = xacts (jrnl w) ∧
  checksum_map (jrnl w2) !! to_string ref = Some x ∧
  (∀ xo' ref',
     xact_objs (objs (hp (st r))) !! x = Some xo' →
     get_tag "UUID" (xact_item xo') = Some ref' →
     to_string ref' = to_string ref →
     res r ≠ Ret true ∧ xacts (jrnl (st r)) = xacts (jrnl w)).
Proof.
  intros Hadd Hn Hxo Htag w2 r.
  apply add_xact_true in Hadd as (w4 & xo4 & Hl & Hc & Hxo4 & H).
  assert (xo4 = xo) as ->.
  { destruct (get_tag "UUID" (xact_item xo4)); [destruct H as [_ H]|];
      subst w1; simpl in Hxo; congruence. }
  rewrite Htag in H. destruct H as [Hfree Hw1].
  assert (remove_xact x w1
    = Result (Ret true) (detach x (set_jrnl (set_xacts (xacts (jrnl w))) w1)) [])
    as Hrem.
  { apply remove_xact_last; [by subst w1; simpl; rewrite Hl|done|by eauto]. }
  assert (xacts (jrnl w2) = xacts (jrnl w)) as Hl2
    by (subst w2; by rewrite Hrem).
  assert (checksum_map (jrnl w2) !! to_string ref = Some x) as Hc2.
  { subst w2. rewrite Hrem. subst w1. simpl. by rewrite lookup_insert_eq. }
  split; [by rewrite Hrem|]. split; [done|]. split; [done|].
  intros xo' ref' Hxo' Htag' Hu.
  assert (res r ≠ Ret true) as Hnt.
  { intros Hb.
    assert (add_xact this finalize auto_extend calc x w2
              = Result (Ret true) (st r) (out r)) as Hadd
      by (rewrite <- Hb; symmetry; apply result_eta).
    apply add_xact_true in Hadd as (w5 & xo5 & _ & Hc5 & Hxo5 & H).
    destruct (get_tag "UUID" (xact_item xo5)) as [ref5|] eqn:Htag5.
    - destruct H as [Hfree5 Hst]. rewrite Hst in Hxo'. simpl in Hxo'.
      assert (xo5 = xo') as -> by congruence.
      assert (ref5 = ref') as -> by congruence.
      rewrite Hu, Hc5, Hc2 in Hfree5. done.
    - rewrite H in Hxo'. simpl in Hxo'. congruence. }
  split; [done|].
  destruct (add_xact_commits_or_keeps this finalize auto_extend calc x w2)
    as [?|[Hk _]]; [done|].
  fold r in Hk. by rewrite Hk.
Qed.

(** Validation without automated transactions changes no object. *)
Lemma extend_and_check_objects x w :
  auto_xacts (jrnl w) = [] →
  hp (st (extend_and_check auto_extend calc x w)) = hp w.
Proof.
  intros Ha. unfold extend_and_check.
  assert (extend_xact auto_extend x w = Result (Ret tt) w []) as He.
  { unfold extend_xact. erewrite run_bind_ret by reflexivity. by rewrite Ha. }
  erewrite run_bind_ret by exact He. cbn [st].
  match goal with |- hp (st (?m w)) = _ =>
    assert (keeps validation_frame m) as Hk
  end.
  { frame; try apply (check_all_metadata_frame this finalize auto_extend).
    apply keeps_get_xact, _. }
  by destruct (Hk w) as [-> _].
Qed.

(** X13: an exception during extension or validation ends [add_xact] on
    the spot.  The state is the one in which the exception was thrown:
    the transaction is not in the list and owns no checksum, but nothing
    is undone; in particular, line 308 is not taken back, so that without
    automated transactions the objects are as [finalize] left them, with
    the back-reference of the transaction still set. *)
Theorem add_xact_throws_no_cleanup x w w1 l1 e w4 l4 :
  is_Some (xact_objs (objs (hp w)) !! x) →
  call_finalize finalize x
    (set_hp (set_objs (assign_journal x (Some this))) w)
    = Result (Ret true) w1 l1 →
  extend_and_check auto_extend calc x w1 = Result (Throw e) w4 l4 →
  add_xact this finalize auto_extend calc x w
    = Result (Throw e) w4 (l1 ++ l4) ∧
  xacts (jrnl w4) = xacts (jrnl w) ∧
  checksum_map (jrnl w4) = checksum_map (jrnl w) ∧
  (auto_xacts (jrnl w) = [] → hp w4 = hp w1).
Proof.
  intros Hx Hfin Hext.
  pose proof (call_finalize_jrnl _ _ _ _ _ _ Hfin) as Hj. simpl in Hj.
  split; [|split; [|split]].
  - unfold add_xact. erewrite run_bind_ret by (by apply put_journal_run).
    erewrite run_bind_ret by exact Hfin. cbn [negb app res st out].
    by rewrite run_bind, Hext.
  - apply (extend_and_check_registry this finalize) in Hext as [Hl _].
    by rewrite Hl, Hj.
  - apply (extend_and_check_registry this finalize) in Hext as [_ Hc].
    by rewrite Hc, Hj.
  - intros Ha. rewrite <- Hj in Ha.
    pose proof (extend_and_check_objects x w1 Ha) as Hh.
    by rewrite Hext in Hh.
Qed.

End AcceptFacts.

(** ** The cache sweep and the stream reader *)

#[global] Instance xdata_frame_preorder : PreOrder xdata_frame.
Proof.
  split.
  - intros w. repeat split; auto.
  - intros w1 w2 w3 (H1 & H2 & H3 & H4 & H5) (H6 & H7 & H8 & H9 & H10).
    split; [congruence|]. split; [congruence|]. split; [congruence|]. split.
    + destruct H9 as [->| ->]; [done|]. destruct H4 as [->| ->]; [by right|].
      right. by rewrite account_clear_xdata_idem.
    + intros x. destruct (H10 x) as [->| ->]; [done|].
      destruct (H5 x) as [->| ->]; [by right|]. right.
      destruct (xact_objs (objs (hp w1)) !! x); simpl; [|done].
      by rewrite clear_item_idem.
Qed.

Lemma clear_each_xdata l : keeps xdata_frame (clear_each l).
Proof.
  apply keeps_foreach; [exact _|]. intros x w.
  destruct (decide (valid_xact w x)) as [Hx|Hx].
  - rewrite clear_one_run by done. cbn [st].
    repeat split; auto. intros y. unfold sweep_world. simpl.
    destruct (decide (y = x)) as [->|Hne].
    + right. by rewrite lookup_alter_eq.
    + left. by rewrite lookup_alter_ne.
  - rewrite clear_one_fault by done. reflexivity.
Qed.

(** X14: whatever its outcome, [clear_xdata] changes nothing but caches.
    The journal's members, the commodity pool and the postings are as
    before; every transaction object is as before or, if it is not flagged
    [ITEM_TEMP], as before with its cache cleared; the account tree is as
    before or as before with its caches cleared. *)
Theorem clear_xdata_only_caches w :
  let w' := st (clear_xdata w) in
  jrnl w' = jrnl w ∧ pool (hp w') = pool (hp w) ∧
  post_objs (objs (hp w')) = post_objs (objs (hp w)) ∧
  (master (hp w') = master (hp w) ∨
   master (hp w') = account_clear_xdata (master (hp w))) ∧
  ∀ x, xact_objs (objs (hp w')) !! x = xact_objs (objs (hp w)) !! x ∨
       xact_objs (objs (hp w')) !! x
         = clear_item <$> xact_objs (objs (hp w)) !! x.
Proof.
  revert w. change (keeps xdata_frame clear_xdata).
  unfold clear_xdata. apply keeps_bind; [exact _|frame|]. intros j.
  do 3 (apply keeps_bind; [exact _|apply clear_each_xdata|]; intros _).
  apply keeps_modify. intros w. repeat split; auto.
Qed.

Lemma temp_xdata_cleared w x : temp_xdata (cleared w) x = temp_xdata w x.
Proof.
  unfold temp_xdata, cleared, sweep_world. simpl. rewrite sweep_lookup.
  destruct (xact_objs (objs (hp w)) !! x) as [xo|]; simpl; [|done].
  case_bool_decide; simpl; [|done]. unfold clear_item.
  by destruct (ITEM_TEMP (xact_item xo)) eqn:E; simpl; rewrite ?E.
Qed.

Lemma has_xdata_cleared w :
  Forall (valid_xact w) (all_xacts (jrnl w)) →
  has_xdata (cleared w)
    = Result
        (Ret (existsb (temp_xdata (cleared w)) (all_xacts (jrnl (cleared w)))))
        (cleared w) [].
Proof.
  intros Hl. rewrite has_xdata_run.
  2:{ eapply Forall_impl; [exact Hl|]. intros x Hx.
      by apply valid_xact_cleared. }
  destruct (account_clear_xdata_none (master (hp w))) as [H1 H2].
  simpl. rewrite H1, H2, !orb_false_r. do 2 f_equal.
  apply existsb_ext_in. intros x Hx.
  by rewrite temp_xdata_cleared, carries_xdata_cleared.
Qed.

(** The state [read] ends in, when it ends without a fault. *)
Lemma read_state default_scope parse in_ pathname master_alt scope w :
  let b := read_body default_scope parse in_ pathname master_alt scope w in
  res (read default_scope parse in_ pathname master_alt scope w) ≠ Fault →
  Forall (valid_xact (st b)) (all_xacts (jrnl (st b))) ∧
  st (read default_scope parse in_ pathname master_alt scope w)
    = cleared (st b).
Proof.
  intros b. unfold read. rewrite run_bind. unfold try_catch_rethrow. fold b.
  destruct (decide (Forall (valid_xact (st b)) (all_xacts (jrnl (st b)))))
    as [Hl|Hl].
  - intros Hnf. split; [done|]. revert Hnf.
    destruct (res b) as [n|e|] eqn:E; cbn [res st out].
    + rewrite E. cbn [res st]. rewrite run_bind.
      by rewrite clear_xdata_run.
    + rewrite run_bind. by rewrite clear_xdata_run.
    + rewrite E. by cbn [res st].
  - apply clear_xdata_fault in Hl. intros Hnf. destruct Hnf.
    destruct (res b) as [n|e|] eqn:E; cbn [res st out].
    + rewrite E. cbn [res st]. rewrite run_bind. by rewrite Hl.
    + rewrite run_bind. by rewrite Hl.
    + by rewrite E.
Qed.

(** X15: whenever [read] ends without a fault, by returning a count or by
    passing on an exception of the parser, the caches that parsing left
    are gone: [has_xdata] on the state it leaves returns, and returns true
    only if a transaction, automated transaction or periodic transaction
    of the journal is flagged [ITEM_TEMP] and carries a cache. *)
Theorem read_leaves_temporary_caches default_scope parse in_ pathname
    master_alt scope w :
  let r := read default_scope parse in_ pathname master_alt scope w in
  res r ≠ Fault →
  has_xdata (st r)
    = Result (Ret (existsb (temp_xdata (st r)) (all_xacts (jrnl (st r)))))
        (st r) [].
Proof.
  intros r Hnf.
  destruct (read_state default_scope parse in_ pathname master_alt scope w Hnf)
    as [Hl Hst].
  subst r. rewrite Hst. by apply has_xdata_cleared.
Qed.

(** ** The rest of the journal *)

Section RestFacts.
Context (default_scope : option scope_ptr).
Context (mask_match : mask_t → string → bool).
Context (parse_ext :
  string → scope_ptr → account_ptr → string → M world_ext nat).
Context (resolve_path : string → string) (exists_ : string → bool).
Context (ifstream : string → string).
Context (account_valid : account_t → bool).
Context (xact_valid : xact_ptr → world → bool).

(** X16: [read] from a path.  If the resolved file does not exist the
    call throws a runtime error that names it between double quotes, as
    a streamed [path] is printed, before anything is parsed or swept: the
    journal is as it was.  If it exists, the outcome and
    the warnings are those of the stream reader on its content, and the
    journal is as the stream reader left it, with the file appended to
    [sources] exactly when a count above zero was returned. *)
Theorem read_path_spec pathname master_account scope e :
  let filename := resolve_path pathname in
  let run := read_path default_scope parse_ext resolve_path exists_ ifstream
               pathname master_account scope e in
  (exists_ filename = false →
   run = Result
           (Throw (runtime_error
              ("Cannot read journal file " +:+ quoted filename)))
           e []) ∧
  (exists_ filename = true →
   let r := read_ext default_scope parse_ext (ifstream filename) filename
              master_account scope e in
   res run = res r ∧ out run = out r ∧
   st run = match res r with
            | Ret (S _) => push_source filename (st r)
            | _ => st r
            end).
Proof.
  intros filename run. subst run. unfold read_path. fold filename. split.
  - by intros ->.
  - intros ->. cbn [negb]. cbv zeta. rewrite run_bind.
    destruct (res (read_ext _ _ _ _ _ _ e)) as [[|n]|err|]; cbn [res st out];
      by rewrite ?app_nil_r.
Qed.

Lemma all_valid_run l w :
  Forall (valid_xact w) l →
  all_valid xact_valid l w
    = Result (Ret (forallb (λ x, xact_valid x w) l)) w [].
Proof.
  induction 1 as [|x l [xo Hx] _ IH]; [done|]. cbn [all_valid forallb].
  erewrite run_bind_ret by (by apply get_xact_run).
  erewrite run_bind_ret by reflexivity.
  destruct (xact_valid x w); cbn [negb andb]; [|done].
  rewrite IH. cbn [res st out]. by destruct (forallb _ l).
Qed.

Lemma all_valid_reads l w :
  st (all_valid xact_valid l w) = w ∧ out (all_valid xact_valid l w) = [].
Proof.
  induction l as [|x l IH]; [done|]. cbn [all_valid].
  destruct (xact_objs (objs (hp w)) !! x) as [xo|] eqn:Hx.
  - erewrite run_bind_ret by (by apply get_xact_run).
    erewrite run_bind_ret by reflexivity.
    destruct (xact_valid x w); cbn [negb res st out app]; [|done].
    by destruct IH as [-> ->].
  - rewrite run_bind. unfold get_xact. by rewrite Hx.
Qed.

(** X17: [valid] only reads: in every outcome the state is as before and
    nothing is printed.  If the master account is not valid it returns
    false without looking at any transaction; otherwise it returns true
    exactly when every transaction of the list [xacts] is valid.  The
    automated and the periodic transactions are not examined. *)
Theorem valid_spec w :
  let r := valid account_valid xact_valid w in
  st r = w ∧ out r = [] ∧
  (account_valid (master (hp w)) = false → res r = Ret false) ∧
  (account_valid (master (hp w)) = true →
   Forall (valid_xact w) (xacts (jrnl w)) →
   res r = Ret (forallb (λ x, xact_valid x w) (xacts (jrnl w)))).
Proof.
  intros r. subst r. unfold valid. erewrite run_bind_ret by reflexivity.
  destruct (account_valid (master (hp w))); cbn [negb].
  - erewrite run_bind_ret by reflexivity. cbn [res st out app].
    destruct (all_valid_reads (xacts (jrnl w)) w) as [-> ->].
    split; [done|]. split; [done|]. split; [done|].
    intros _ Hl. by rewrite all_valid_run.
  - done.
Qed.

Lemma payee_mapping_first pre m p post nm :
  (∀ i, i ∈ pre → mask_match i.1 nm = false) →
  mask_match m nm = true →
  payee_mapping mask_match (pre ++ (m, p) :: post) nm = p.
Proof.
  induction pre as [|i pre IH]; intros Hpre Hm; simpl.
  - by rewrite Hm.
  - rewrite (Hpre i) by apply list_elem_of_here.
    apply IH; [|done]. intros j Hj. apply Hpre. by apply list_elem_of_further.
Qed.

Lemma payee_mapping_none l nm :
  (∀ i, i ∈ l → mask_match i.1 nm = false) →
  payee_mapping mask_match l nm = EmptyString.
Proof.
  induction l as [|i l IH]; intros Hl; simpl; [done|].
  rewrite (Hl i) by apply list_elem_of_here.
  apply IH. intros j Hj. apply Hl. by apply list_elem_of_further.
Qed.

(** X18: [register_payee] gives the payee of the first mapping whose mask
    matches the name, whatever the later mappings say; if that payee is
    empty, or if no mask matches, it gives the name itself.  The
    transaction and the location play no part. *)
Theorem register_payee_first_match r nm x loc :
  (∀ pre m p post,
     payee_mappings r = pre ++ (m, p) :: post →
     (∀ i, i ∈ pre → mask_match i.1 nm = false) →
     mask_match m nm = true →
     register_payee mask_match r nm x loc
       = if bool_decide (p = EmptyString) then nm else p) ∧
  ((∀ i, i ∈ payee_mappings r → mask_match i.1 nm = false) →
   register_payee mask_match r nm x loc = nm).
Proof.
  split.
  - intros pre m p post Hl Hpre Hm. unfold register_payee.
    by rewrite Hl, (payee_mapping_first pre m p post nm Hpre Hm).
  - intros Hl. unfold register_payee.
    by rewrite (payee_mapping_none _ _ Hl).
Qed.

End RestFacts.

(** ** The further properties at concrete journals *)

(** A fresh journal is permissive. *)
Lemma register_account_permissive_witness :
  (∀ e, res (register_account match_any "Expenses:Food" (Some 1%positive)
               "j.dat:3: " [] (sample_world initialize)) ≠ Throw e) ∧
  out (register_account match_any "Expenses:Food" (Some 1%positive)
         "j.dat:3: " [] (sample_world initialize)) = [].
Proof.
  apply (register_account_permissive match_any "Expenses:Food"
           (Some 1%positive) "j.dat:3: " [] (sample_world initialize)).
  reflexivity.
Defined.

(** An account met on the uncleared posting 1 under [CHECK_WARNING]. *)
Lemma register_account_lenient_witness :
  let w1 := st (resolve_account match_any "Expenses:Food" (Some 1%positive) []
                  warning_world) in
  register_account match_any "Expenses:Food" (Some 1%positive) "j.dat:3: " []
      warning_world
    = Result (Ret ["Expenses"; "Food"]) w1
        ["j.dat:3: Unknown account 'Expenses:Food'"].
Proof.
  intros w1.
  apply (register_account_lenient match_any "Expenses:Food" 1%positive
           "j.dat:3: " [] warning_world ["Expenses"; "Food"] w1 []
           (new_account "Food")); try (vm_compute; reflexivity).
  - discriminate.
  - right. exists (sample_post UNCLEARED). split; vm_compute; reflexivity.
Defined.

(** What has been declared passes, also where everything is fixed under
    [CHECK_ERROR], on an uncleared posting and on a null transaction. *)
Lemma known_entity_passes_witness :
  register_account match_any "Expenses:Food" (Some 1%positive) "j.dat:9: " []
      declared_world
    = Result (Ret ["Expenses"; "Food"])
        (st (resolve_account match_any "Expenses:Food" (Some 1%positive) []
               declared_world)) [] ∧
  register_commodity "EUR" (ctx_post (Some 1%positive)) "j.dat:9: "
      declared_world
    = Result (Ret tt) declared_world [] ∧
  register_metadata (calc_says true) "Payee" NULL_VALUE (ctx_xact None)
      "j.dat:9: " declared_world
    = Result (Ret tt) declared_world [].
Proof.
  destruct (known_entity_passes match_any (calc_says true) declared_world)
    as (Ha & Hc & Hm).
  split; [|split].
  - apply (Ha "Expenses:Food" (Some 1%positive) "j.dat:9: " []
             ["Expenses"; "Food"]
             (st (resolve_account match_any "Expenses:Food" (Some 1%positive)
                    [] declared_world))
             [] (add_flags_ACCOUNT_KNOWN (new_account "Food")));
      vm_compute; reflexivity.
  - apply (Hc "EUR" {| symbol := "EUR"; COMMODITY_KNOWN := true |});
      vm_compute; reflexivity.
  - apply Hm; [|reflexivity]. vm_compute. set_solver.
Defined.

(** The commodity EUR and the tag Payee met on the cleared posting 2,
    under [CHECK_ERROR]. *)
Lemma unfixed_kind_learns_witness :
  register_commodity "EUR" (ctx_post (Some 2%positive)) "j.dat:3: " strict_world
    = Result (Ret tt)
        (set_hp (set_pool (alter
           (λ k, {| symbol := symbol k; COMMODITY_KNOWN := true |}) "EUR"))
           strict_world) [] ∧
  register_metadata (calc_says true) "Payee" NULL_VALUE
      (ctx_post (Some 2%positive)) "j.dat:3: " strict_world
    = Result (Ret tt)
        (set_jrnl (λ j, set_known_tags ({["Payee"]} ∪ known_tags j) j)
           strict_world) [].
Proof.
  destruct (unfixed_kind_learns (calc_says true) (ctx_post (Some 2%positive))
              CLEARED strict_world) as [Hc Hm];
    [vm_compute; reflexivity|discriminate|].
  split.
  - apply (Hc eq_refl "EUR" {| symbol := "EUR"; COMMODITY_KNOWN := false |});
      vm_compute; reflexivity.
  - apply (Hm eq_refl). vm_compute. set_solver.
Defined.

(** A fresh journal is permissive: the commodity EUR and the tag Payee
    on the uncleared posting 1. *)
Lemma permissive_commodities_and_tags_witness :
  (∀ e, res (register_commodity "EUR" (ctx_post (Some 1%positive)) "j.dat:3: "
               (sample_world initialize)) ≠ Throw e) ∧
  (∀ e, res (register_metadata (calc_says true) "Payee" NULL_VALUE
               (ctx_post (Some 1%positive)) "j.dat:3: "
               (sample_world initialize)) ≠ Throw e).
Proof.
  destruct (permissive_commodities_and_tags (calc_says true)
              (sample_world initialize) eq_refl) as [Hc Hm].
  split; [apply Hc|apply Hm].
Defined.

(** The tag Payee is declared while [force_checking] is on; the tag Ref
    is then refused on the cleared transaction 1. *)
Lemma declaration_fixes_tags_witness :
  let w' := set_jrnl (λ j, set_known_tags ({["Payee"]} ∪ known_tags j) j)
              (set_jrnl (set_fixed_metadata true) forced_world) in
  register_metadata (calc_says true) "Payee" NULL_VALUE (ctx_int 0)
      "j.dat:1: " forced_world
    = Result (Ret tt) w' [] ∧
  register_metadata (calc_says true) "Ref" (string_value "A1")
      (ctx_xact (Some 1%positive)) "j.dat:3: " w'
    = Result (Throw (parse_error "Unknown metadata tag 'Ref'")) w' [].
Proof.
  apply (declaration_fixes_tags (calc_says true) "Payee" 0 "j.dat:1: "
           forced_world "Ref" (string_value "A1") (ctx_xact (Some 1%positive))
           "j.dat:3: "); try reflexivity; try discriminate;
    vm_compute; set_solver.
Defined.

(** A declaration of the tag Ref with a value, while checks for Ref are
    registered. *)
Lemma register_metadata_declared_value_witness :
  let r := check_tag_known "Ref" (ctx_int 0) "j.dat:1: " checked_world in
  res r = Ret tt ∧ out r = [] ∧ "Ref" ∈ known_tags (jrnl (st r)) ∧
  tag_check_exprs (jrnl (st r)) = tag_check_exprs (jrnl checked_world) ∧
  register_metadata (calc_says true) "Ref" (string_value "C1") (ctx_int 0)
      "j.dat:1: " checked_world
    = Result (Throw bad_get) (st r) [].
Proof.
  apply (register_metadata_declared_value (calc_says true) "Ref"
           (string_value "C1") 0 "j.dat:1: " checked_world).
  reflexivity.
Defined.

(** Transaction 1, which carries the UUID 7f3a, added to a fresh journal. *)
Lemma add_xact_accepts_witness :
  let w := sample_world initialize in
  let wf := st (add_xact 1%positive (finalize_says true) no_auto_extend
                  (calc_says true) 1%positive w) in
  xacts (jrnl wf) = xacts (jrnl w) ++ [1%positive] ∧
  ∃ xo, xact_objs (objs (hp wf)) !! 1%positive = Some xo ∧
    match get_tag "UUID" (xact_item xo) with
    | Some ref =>
        checksum_map (jrnl w) !! to_string ref = None ∧
        checksum_map (jrnl wf)
          = <[to_string ref := 1%positive]> (checksum_map (jrnl w))
    | None => checksum_map (jrnl wf) = checksum_map (jrnl w)
    end.
Proof.
  intros w wf.
  apply (add_xact_accepts 1%positive (finalize_says true) no_auto_extend
           (calc_says true) 1%positive w wf []).
  vm_compute. reflexivity.
Defined.

(** Transaction 1 added, removed and added again. *)
Lemma remove_xact_keeps_uuid_witness :
  let add := add_xact 1%positive (finalize_says true) no_auto_extend
               (calc_says true) 1%positive in
  let w := sample_world initialize in
  let w2 := st (remove_xact 1%positive (st (add w))) in
  res (remove_xact 1%positive (st (add w))) = Ret true ∧
  xacts (jrnl w2) = xacts (jrnl w) ∧
  checksum_map (jrnl w2) !! "7f3a" = Some 1%positive ∧
  (∀ xo' ref',
     xact_objs (objs (hp (st (add w2)))) !! 1%positive = Some xo' →
     get_tag "UUID" (xact_item xo') = Some ref' →
     to_string ref' = "7f3a" →
     res (add w2) ≠ Ret true ∧ xacts (jrnl (st (add w2))) = xacts (jrnl w)).
Proof.
  intros add w w2.
  apply (remove_xact_keeps_uuid 1%positive (finalize_says true) no_auto_extend
           (calc_says true) 1%positive w (st (add w)) []
           (set_journal (Some 1%positive)
              (sample_xact CLEARED [uuid_tag "7f3a"] [1%positive; 2%positive]))
           (string_value "7f3a")); try (vm_compute; reflexivity).
  vm_compute. by intros ?%elem_of_nil.
Defined.

(** Where the tags are fixed under [CHECK_ERROR], the tag UUID of
    transaction 1 is refused; the transaction keeps its back-reference. *)
Lemma add_xact_throws_no_cleanup_witness :
  let w1 := set_hp (set_objs (assign_journal 1%positive (Some 1%positive)))
              fixed_world in
  add_xact 1%positive (finalize_says true) no_auto_extend (calc_says true)
      1%positive fixed_world
    = Result (Throw (parse_error "Unknown metadata tag 'UUID'")) w1 [] ∧
  xacts (jrnl w1) = xacts (jrnl fixed_world) ∧
  checksum_map (jrnl w1) = checksum_map (jrnl fixed_world) ∧
  (auto_xacts (jrnl fixed_world) = [] → hp w1 = hp w1).
Proof.
  intros w1.
  apply (add_xact_throws_no_cleanup 1%positive (finalize_says true)
           no_auto_extend (calc_says true) 1%positive fixed_world w1 []
           (parse_error "Unknown metadata tag 'UUID'") w1 []).
  - vm_compute. eauto.
  - vm_compute. reflexivity.
  - vm_compute. reflexivity.
Defined.

(** After a read of [temp_world], whose transaction is temporary and
    carries a cache, [has_xdata] returns true. *)
Lemma read_leaves_temporary_caches_witness :
  let r := read (Some 1%positive) (parse_returns 2) "2012/02/27 Grocer"
             "j.dat" None None temp_world in
  has_xdata (st r)
    = Result (Ret (existsb (temp_xdata (st r)) (all_xacts (jrnl (st r)))))
        (st r) [].
Proof.
  apply (read_leaves_temporary_caches (Some 1%positive) (parse_returns 2)
           "2012/02/27 Grocer" "j.dat" None None temp_world).
  vm_compute. discriminate.
Defined.

(** The file k.dat is missing; the file j.dat gives two transactions. *)
Lemma read_path_spec_witness :
  let run p := read_path (Some 1%positive) (parse_ext_returns 2) id
                 (only_file "j.dat") content_of p None None sample_ext in
  run "k.dat"
    = Result
        (Throw (runtime_error
           ("Cannot read journal file "
              +:+ String double_quote ("k.dat" +:+ String double_quote EmptyString))))
        sample_ext [] ∧
  res (run "j.dat") = Ret 2 ∧
  sources (rest (st (run "j.dat"))) = ["j.dat"].
Proof.
  intros run. split.
  - apply (read_path_spec (Some 1%positive) (parse_ext_returns 2) id
             (only_file "j.dat") content_of "k.dat" None None sample_ext).
    reflexivity.
  - destruct (read_path_spec (Some 1%positive) (parse_ext_returns 2) id
                (only_file "j.dat") content_of "j.dat" None None sample_ext)
      as [_ H].
    destruct (H eq_refl) as (Hr & _ & Hs). subst run. cbv beta.
    rewrite Hr, Hs. split; vm_compute; reflexivity.
Defined.

(** In [temp_world] the master account and the one transaction are
    taken to be valid. *)
Lemma valid_spec_witness :
  let r := valid (λ _, true) (λ _ _, true) temp_world in
  st r = temp_world ∧ out r = [] ∧ res r = Ret true.
Proof.
  destruct (valid_spec (λ _, true) (λ _ _, true) temp_world)
    as (Hs & Ho & _ & Hr).
  cbv zeta. split; [exact Hs|]. split; [exact Ho|].
  rewrite Hr; [reflexivity|reflexivity|].
  vm_compute. repeat constructor. eauto.
Defined.

(** Both masks match the payee Grocer; the first one gives the result.
    No mask matches Baker. *)
Lemma register_payee_first_match_witness :
  register_payee match_prefix (rest sample_ext) "Grocer" None "j.dat:3: "
    = "Grocer Ltd" ∧
  register_payee match_prefix (rest sample_ext) "Baker" None "j.dat:3: "
    = "Baker".
Proof.
  split.
  - apply (proj1 (register_payee_first_match match_prefix (rest sample_ext)
                    "Grocer" None "j.dat:3: ") [] "Gro" "Grocer Ltd"
                 [("G", "G Stores")]); try reflexivity.
    by intros i ?%elem_of_nil.
  - apply (proj2 (register_payee_first_match match_prefix (rest sample_ext)
                    "Baker" None "j.dat:3: ")).
    intros i Hi. vm_compute in Hi.
    repeat (apply elem_of_cons in Hi as [->|Hi]; [reflexivity|]).
    by apply elem_of_nil in Hi.
Defined.

(** The alias Cash stands for Assets:Cash. *)
Lemma lookup_account_alias_witness :
  lookup_account "Cash" [] aliased_world
    = Result (Ret ["Assets"; "Cash"]) aliased_world [].
Proof.
  apply (lookup_account_alias "Cash" [] aliased_world ["Assets"; "Cash"]).
  vm_compute. reflexivity.
Defined.

(** Both masks match the payee Grocer of transaction 1; the first one
    gives the account.  The master account is not named Unknown. *)
Lemma route_unknown_account_first_match_witness :
  route_unknown_account match_prefix None [] unknown_world
    = Result (Ret []) unknown_world [] ∧
  route_unknown_account match_prefix (Some 1%positive) ["Unknown"]
      unknown_world
    = Result (Ret ["Expenses"; "Food"]) unknown_world [].
Proof.
  split.
  - apply (proj1 (route_unknown_account_first_match match_prefix 1%positive
                    (sample_post UNCLEARED) 1%positive
                    (sample_xact CLEARED [uuid_tag "7f3a"]
                       [1%positive; 2%positive])
                    [] (master (hp unknown_world)) unknown_world eq_refl));
      discriminate.
  - assert (account_at ["Unknown"] (master (hp unknown_world))
            = Some (new_account "Unknown")) as Ha by (vm_compute; reflexivity).
    apply (proj1 (proj2 (route_unknown_account_first_match match_prefix
                    1%positive (sample_post UNCLEARED) 1%positive
                    (sample_xact CLEARED [uuid_tag "7f3a"]
                       [1%positive; 2%positive])
                    ["Unknown"] (new_account "Unknown") unknown_world Ha)
                  eq_refl eq_refl eq_refl eq_refl)
             [] "Grocer" ["Expenses"; "Food"] [("Gro", ["Expenses"])]);
      try (vm_compute; reflexivity).
    by intros v ?%elem_of_nil.
Defined.
